(** * SignalR hub protocol: framing, JSON hub protocol, hub connection and
      client-to-server streams

    A shallow embedding of
    - [jsonhubprotocol.go]   (JSONHubProtocol: ParseMessage, WriteMessage,
                              UnmarshalArgument, parseTextMessageFormat),
    - the earlier [JsonHubProtocol] over a [bytes.Buffer]
                             (ReadMessage, parseTextMessageFormat, WriteMessage),
    - [defaultHubConnection] (Start, IsConnected, Close, Receive and the
                              typed send operations),
    - [streamClient]         (buildChannelArgument, receiveStreamItem,
                              convertNumberToChannelType, receiveCompletionItem).

    Go values of type [interface{}] are modelled by the tagged union [any],
    [reflect.Type] by [gotype], byte slices by [list byte], Go maps by
    [gmap], io.Reader / Connection by the list of chunks the transport will
    deliver, and a panic by an explicit [Panic] outcome. *)

From Stdlib Require Import ZArith List Strings.Byte SpecFloat DecimalString.
From stdpp Require Import gmap strings list.
Import ListNotations.
Open Scope Z_scope.

(** ** Bytes and the record separator *)

Definition bytes := list byte.

(** ASCII 0x1E, written [30] in the source. *)
Definition RS : byte := x1e.

Definition zeros (n : nat) : bytes := repeat x00 n.

(** [bytes.IndexByte]: index of the first occurrence of [c], [None] for -1. *)
Fixpoint IndexByte (b : bytes) (c : byte) : option nat :=
  match b with
  | [] => None
  | x :: b' =>
      if Byte.eqb x c then Some 0%nat
      else match IndexByte b' c with
           | Some i => Some (S i)
           | None => None
           end
  end.

(** ** Errors and outcomes *)

Inductive error : Type :=
  | io_EOF
  | TransportError (reason : string)
  | decodeError (reason : string)          (* an error of the JSON library *)
  | jsonError (raw : bytes) (err : error)  (* [&jsonError{raw, err}] *)
  | fmtError (text : string)               (* [fmt.Errorf(...)] *)
  | recovered (reason : string).           (* the value of a recovered panic *)

(** [err.Error()] *)
Fixpoint error_text (e : error) : string :=
  match e with
  | io_EOF => "EOF"
  | TransportError reason => reason
  | decodeError reason => reason
  | jsonError raw err =>
      error_text err +:+ " (source: " +:+ String.string_of_list_byte raw +:+ ")"
  | fmtError text => text
  | recovered reason => reason
  end.

(** A Go call either returns or panics. *)
Inductive outcome (A : Type) : Type :=
  | Ret (a : A)
  | Panic (reason : string).
Arguments Ret {A} a.
Arguments Panic {A} reason.

(** ** io.Reader: the chunks the transport is going to deliver *)

Definition Reader := list bytes.

(** [reader.Read(p)]: the next chunk is copied over the front of [p]; what
    does not fit stays in the reader.  The rest of [p] keeps its old
    content.  An exhausted reader returns [0, io.EOF]. *)
Definition Read (r : Reader) (p : bytes) : nat * option error * bytes * Reader :=
  match r with
  | [] => (0%nat, Some io_EOF, p, [])
  | c :: rest =>
      let n := Nat.min (length c) (length p) in
      let p' := firstn n c ++ skipn n p in
      let r' := if (length c <=? length p)%nat then rest else skipn n c :: rest in
      (n, None, p', r')
  end.

(** Number of [Read] calls after which a reader is certainly exhausted. *)
Fixpoint reader_size (r : Reader) : nat :=
  match r with
  | [] => 0
  | c :: rest => S (length c + reader_size rest)
  end.

(** ** Frames: [parseTextMessageFormat] *)

Module Stream.
(** [jsonhubprotocol.go], lines 115-129: the version reading from an
    [io.Reader] through a 1024 byte scratch slice. *)
Fixpoint parseTextMessageFormat_loop (fuel : nat) (reader : Reader)
    (data p : bytes) : option (option bytes * option error * Reader) :=
  match fuel with
  | O => None
  | S fuel' =>
      let '(n, err, p', reader') := Read reader p in
      match err with
      | Some e => Some (None, Some e, reader')
      | None =>
          match IndexByte p' RS with
          | Some i => Some (Some (data ++ firstn i p'), None, reader')
          | None => parseTextMessageFormat_loop fuel' reader' (data ++ firstn n p') p'
          end
      end
  end.

Definition parseTextMessageFormat (reader : Reader)
    : option (option bytes * option error * Reader) :=
  parseTextMessageFormat_loop (S (reader_size reader)) reader [] (zeros 1024).
End Stream.

Module Buffered.
(** [bytes.Buffer.ReadBytes(delim)]: up to and including the delimiter;
    without one, everything that is buffered together with [io.EOF].
    Either way the returned bytes leave the buffer. *)
Definition ReadBytes (buf : bytes) (delim : byte) : bytes * option error * bytes :=
  match IndexByte buf delim with
  | Some i => (firstn (S i) buf, None, skipn (S i) buf)
  | None => (buf, Some io_EOF, [])
  end.

(** The version over a [*bytes.Buffer]; returns the new buffer as well. *)
Definition parseTextMessageFormat (buf : bytes) : bytes * option error * bytes :=
  let '(data, err, buf') := ReadBytes buf RS in
  match err with
  | Some e => (data, Some e, buf')
  | None => (firstn (length data - 1) data, None, buf')
  end.
End Buffered.

(** ** Go types and dynamically typed values *)

Inductive intKind : Type :=
  | Int | Int8 | Int16 | Int32 | Int64
  | Uint | Uint8 | Uint16 | Uint32 | Uint64.

Inductive ChanDir : Type := RecvDir | SendDir | BothDir.

(** [reflect.Type], as far as the streaming code inspects it. *)
Inductive gotype : Type :=
  | TBool
  | TInt (k : intKind)
  | TUintptr
  | TFloat32
  | TFloat64
  | TComplex64
  | TComplex128
  | TString
  | TInterface
  | TRawMessage                         (* json.RawMessage, a named []byte *)
  | TSlice (elem : gotype)
  | TArray (len : nat) (elem : gotype)
  | TMap (key elem : gotype)
  | TChan (dir : ChanDir) (elem : gotype)
  | TNamed (name : string) (underlying : gotype).

Inductive Kind : Type :=
  | KBool | KInt (k : intKind) | KUintptr | KFloat32 | KFloat64
  | KComplex64 | KComplex128 | KString | KInterface
  | KSlice | KArray | KMap | KChan.

Fixpoint kind_of (t : gotype) : Kind :=
  match t with
  | TBool => KBool
  | TInt k => KInt k
  | TUintptr => KUintptr
  | TFloat32 => KFloat32
  | TFloat64 => KFloat64
  | TComplex64 => KComplex64
  | TComplex128 => KComplex128
  | TString => KString
  | TInterface => KInterface
  | TRawMessage => KSlice
  | TSlice _ => KSlice
  | TArray _ _ => KArray
  | TMap _ _ => KMap
  | TChan _ _ => KChan
  | TNamed _ u => kind_of u
  end.

#[global] Instance intKind_eq_dec : EqDecision intKind.
Proof. solve_decision. Defined.
#[global] Instance ChanDir_eq_dec : EqDecision ChanDir.
Proof. solve_decision. Defined.
#[global] Instance gotype_eq_dec : EqDecision gotype.
Proof. solve_decision. Defined.
#[global] Instance Kind_eq_dec : EqDecision Kind.
Proof. solve_decision. Defined.

(** IEEE 754 binary64 and binary32 numbers. *)
Definition float64 := spec_float.
Definition float32 := spec_float.

(** A value of type [interface{}]: the dynamic type is the constructor.  A
    channel value is a reference: the address of the channel, [None] for
    the nil channel. *)
#[warnings="-register-all"]
Inductive any : Type :=
  | Nil
  | VBool (b : bool)
  | VInt (k : intKind) (z : Z)
  | VUintptr (z : Z)
  | VFloat32 (f : float32)
  | VFloat64 (f : float64)
  | VComplex64 (re im : float32)
  | VComplex128 (re im : float64)
  | VString (s : string)
  | VRawMessage (raw : bytes)
  | VSlice (elem : gotype) (items : list any)
  | VArray (elem : gotype) (items : list any)
  | VMap (key elem : gotype) (entries : list (any * any))
  | VChan (dir : ChanDir) (elem : gotype) (addr : option nat)
  | VNamed (name : string) (v : any).

(** [reflect.TypeOf]; [None] is the nil [reflect.Type] of a nil interface. *)
Fixpoint TypeOf (v : any) : option gotype :=
  match v with
  | Nil => None
  | VBool _ => Some TBool
  | VInt k _ => Some (TInt k)
  | VUintptr _ => Some TUintptr
  | VFloat32 _ => Some TFloat32
  | VFloat64 _ => Some TFloat64
  | VComplex64 _ _ => Some TComplex64
  | VComplex128 _ _ => Some TComplex128
  | VString _ => Some TString
  | VRawMessage _ => Some TRawMessage
  | VSlice e _ => Some (TSlice e)
  | VArray e l => Some (TArray (length l) e)
  | VMap k e _ => Some (TMap k e)
  | VChan d e _ => Some (TChan d e)
  | VNamed n u =>
      match TypeOf u with
      | Some t => Some (TNamed n t)
      | None => None
      end
  end.

(** The zero value of a type, boxed in an interface:
    [reflect.Indirect(reflect.New(t)).Interface()]. *)
Fixpoint zero_value (t : gotype) : any :=
  match t with
  | TBool => VBool false
  | TInt k => VInt k 0
  | TUintptr => VUintptr 0
  | TFloat32 => VFloat32 (S754_zero false)
  | TFloat64 => VFloat64 (S754_zero false)
  | TComplex64 => VComplex64 (S754_zero false) (S754_zero false)
  | TComplex128 => VComplex128 (S754_zero false) (S754_zero false)
  | TString => VString ""
  | TInterface => Nil
  | TRawMessage => VRawMessage []
  | TSlice e => VSlice e []
  | TArray n e => VArray e (repeat (zero_value e) n)
  | TMap k e => VMap k e []
  | TChan d e => VChan d e None
  | TNamed n u => VNamed n (zero_value u)
  end.

(** ** Protocol messages

    The structs of the hub protocol; the field sets are those used by
    [ParseMessage] and by the send operations of the hub connection. *)

Record hubMessage := { hub_Type : Z }.

Record jsonInvocationMessage := {
  jinv_Type : Z;
  jinv_Target : string;
  jinv_InvocationID : string;
  jinv_Arguments : list bytes;           (* []json.RawMessage *)
  jinv_StreamIds : list string }.

Record invocationMessage := {
  inv_Type : Z;
  inv_Target : string;
  inv_InvocationID : string;
  inv_Arguments : list any;
  inv_StreamIds : list string }.

Record sendOnlyHubInvocationMessage := {
  so_Type : Z;
  so_Target : string;
  so_Arguments : list any }.

Record streamItemMessage := {
  si_Type : Z;
  si_InvocationID : string;
  si_Item : any }.

Record completionMessage := {
  cpl_Type : Z;
  cpl_InvocationID : string;
  cpl_Result : any;
  cpl_Error : string }.

Record cancelInvocationMessage := {
  cancel_Type : Z;
  cancel_InvocationID : string }.

Record closeMessage := {
  close_Type : Z;
  close_Error : string;
  close_AllowReconnect : bool }.

(** What [ParseMessage] returns and [WriteMessage] accepts as [interface{}]. *)
Inductive message : Type :=
  | MHub (m : hubMessage)
  | MInvocation (m : invocationMessage)
  | MSendOnlyInvocation (m : sendOnlyHubInvocationMessage)
  | MStreamItem (m : streamItemMessage)
  | MCompletion (m : completionMessage)
  | MCancelInvocation (m : cancelInvocationMessage)
  | MClose (m : closeMessage).

(** ** The JSON library

    [encoding/json] and the easyjson code generated for the message structs
    are libraries the protocol calls; they are an interface here.
    [Unmarshal_*] start from the zero struct and return the struct as far
    as it was filled together with the error, as the in-place Go methods
    do.  [MarshalEasyJSON] is [None] for a value that does not implement
    [easyjson.Marshaler]. *)
Class JSON := {
  Unmarshal_hubMessage : bytes -> hubMessage * option error;
  Unmarshal_jsonInvocationMessage : bytes -> jsonInvocationMessage * option error;
  Unmarshal_streamItemMessage : bytes -> streamItemMessage * option error;
  Unmarshal_completionMessage : bytes -> completionMessage * option error;
  Unmarshal_cancelInvocationMessage : bytes -> cancelInvocationMessage * option error;
  Unmarshal_closeMessage : bytes -> closeMessage * option error;
  (** [json.Unmarshal(raw, value)] with [value] a pointer to a [t]. *)
  Unmarshal_value : bytes -> gotype -> any * option error;
  MarshalEasyJSON : message -> option bytes;
  (** [json.NewEncoder(&buf).Encode(message)]: the text and a newline. *)
  Encode : message -> bytes + error
}.

(** ** io.Writer *)

Record Writer := {
  written : list bytes;      (* the argument of every Write call, in order *)
  broken : bool }.           (* a broken transport fails every Write *)

Definition Write (w : Writer) (b : bytes) : Writer * option error :=
  ({| written := written w ++ [b]; broken := broken w |},
   if broken w then Some (TransportError "write failed") else None).

(** ** JSONHubProtocol ([jsonhubprotocol.go]) *)

Module JSONHubProtocol.
Section Protocol.
Context `{JSON}.

(** [UnmarshalArgument]: the type assertion [argument.(json.RawMessage)]
    panics for any other dynamic type. *)
Definition UnmarshalArgument (argument : any) (value : gotype)
    : outcome (any * option error) :=
  match argument with
  | VRawMessage raw =>
      match Unmarshal_value raw value with
      | (v, Some err) => Ret (v, Some (jsonError raw err))
      | (v, None) => Ret (v, None)
      end
  | _ => Panic "interface conversion: interface {} is not json.RawMessage"
  end.

(** The part of [ParseMessage] that follows [parseTextMessageFormat]. *)
Definition parseFrame (data : bytes) : option message * option error :=
  let wrap (err : option error) :=
    match err with
    | Some e => Some (jsonError data e)
    | None => None
    end in
  match Unmarshal_hubMessage data with
  | (_, Some err) => (None, Some (jsonError data err))
  | (message, None) =>
      if decide (hub_Type message = 1 \/ hub_Type message = 4) then
        let '(jsonInvocation, err) := Unmarshal_jsonInvocationMessage data in
        let arguments := map VRawMessage (jinv_Arguments jsonInvocation) in
        (Some (MInvocation {|
                 inv_Type := jinv_Type jsonInvocation;
                 inv_Target := jinv_Target jsonInvocation;
                 inv_InvocationID := jinv_InvocationID jsonInvocation;
                 inv_Arguments := arguments;
                 inv_StreamIds := jinv_StreamIds jsonInvocation |}),
         wrap err)
      else if decide (hub_Type message = 2) then
        let '(streamItem, err) := Unmarshal_streamItemMessage data in
        (Some (MStreamItem streamItem), wrap err)
      else if decide (hub_Type message = 3) then
        let '(completion, err) := Unmarshal_completionMessage data in
        (Some (MCompletion completion), wrap err)
      else if decide (hub_Type message = 5) then
        let '(invocation, err) := Unmarshal_cancelInvocationMessage data in
        (Some (MCancelInvocation invocation), wrap err)
      else if decide (hub_Type message = 7) then
        let '(cm, err) := Unmarshal_closeMessage data in
        (Some (MClose cm), wrap err)
      else (Some (MHub message), None)
  end.

Definition ParseMessage (buf : Reader)
    : option (option message * option error * Reader) :=
  match Stream.parseTextMessageFormat buf with
  | None => None
  | Some (data, err, buf') =>
      match err with
      | Some io_EOF => Some (None, err, buf')
      | _ =>
          let '(m, e) := parseFrame (default [] data) in
          Some (m, e, buf')
      end
  end.

(** [WriteMessage]: the marshalled message and the record separator go to
    the writer in one [Write]. *)
Definition WriteMessage (msg : message) (writer : Writer) : Writer * option error :=
  match MarshalEasyJSON msg with
  | Some em => Write writer (em ++ [RS])
  | None => (writer, Some (fmtError "does not implement easyjson.Marshaler"))
  end.

End Protocol.
End JSONHubProtocol.

(** ** The earlier JsonHubProtocol, reading from a [bytes.Buffer] *)

Module JsonHubProtocol.
Section Protocol.
Context `{JSON}.

Definition UnmarshalArgument (argument : any) (value : gotype)
    : outcome (any * option error) :=
  match argument with
  | VRawMessage raw => Ret (Unmarshal_value raw value)
  | _ => Panic "interface conversion: interface {} is not json.RawMessage"
  end.

(** The part of [ReadMessage] that follows [parseTextMessageFormat]. *)
Definition decodeFrame (data : bytes) : option message * option error :=
  match Unmarshal_hubMessage data with
  | (_, Some err) => (None, Some err)
  | (message, None) =>
      if decide (hub_Type message = 1 \/ hub_Type message = 4) then
        let '(jsonInvocation, err) := Unmarshal_jsonInvocationMessage data in
        let arguments := map VRawMessage (jinv_Arguments jsonInvocation) in
        (Some (MInvocation {|
                 inv_Type := jinv_Type jsonInvocation;
                 inv_Target := jinv_Target jsonInvocation;
                 inv_InvocationID := jinv_InvocationID jsonInvocation;
                 inv_Arguments := arguments;
                 inv_StreamIds := jinv_StreamIds jsonInvocation |}),
         err)
      else if decide (hub_Type message = 2) then
        let '(streamItem, err) := Unmarshal_streamItemMessage data in
        (Some (MStreamItem streamItem), err)
      else if decide (hub_Type message = 3) then
        let '(completion, err) := Unmarshal_completionMessage data in
        (Some (MCompletion completion), err)
      else if decide (hub_Type message = 5) then
        let '(invocation, err) := Unmarshal_cancelInvocationMessage data in
        (Some (MCancelInvocation invocation), err)
      else (Some (MHub message), None)
  end.

(** [ReadMessage]: message, complete, error, and the buffer afterwards. *)
Definition ReadMessage (buf : bytes)
    : option message * bool * option error * bytes :=
  let '(data, err, buf') := Buffered.parseTextMessageFormat buf in
  match err with
  | Some io_EOF => (None, false, err, buf')
  | Some _ => (None, true, err, buf')
  | None =>
      let '(m, e) := decodeFrame data in
      (m, true, e, buf')
  end.

Definition WriteMessage (msg : message) (writer : Writer) : Writer * option error :=
  match Encode msg with
  | inr err => (writer, Some err)
  | inl text => Write writer (text ++ [RS])
  end.
End Protocol.
End JsonHubProtocol.

(** ** The hub connection ([defaultHubConnection]) *)

(** The [HubProtocol] interface the connection is built on. *)
Class HubProtocol := {
  ReadMessage : bytes -> option message * bool * option error * bytes;
  WriteMessage : message -> Writer -> Writer * option error
}.

#[global] Instance JsonHubProtocol_HubProtocol `{JSON} : HubProtocol := {|
  ReadMessage := JsonHubProtocol.ReadMessage;
  WriteMessage := JsonHubProtocol.WriteMessage
|}.

(** [Connection]: an [io.Reader], an [io.Writer] and an identifier. *)
Record Connection := {
  conn_reader : Reader;
  conn_writer : Writer;
  ConnectionID : string }.

Record defaultHubConnection := {
  Connected : Z;                (* int32, accessed atomically *)
  Conn : Connection }.

Module HubConnection.
Section HubConnection.
Context `{HubProtocol}.

Definition newHubConnection (connection : Connection) : defaultHubConnection :=
  {| Connected := 0; Conn := connection |}.

(** [c.Protocol.WriteMessage(m, c.Connection)], result dropped. *)
Definition send (m : message) (c : defaultHubConnection) : defaultHubConnection :=
  let '(w, _) := WriteMessage m (conn_writer (Conn c)) in
  {| Connected := Connected c;
     Conn := {| conn_reader := conn_reader (Conn c);
                conn_writer := w;
                ConnectionID := ConnectionID (Conn c) |} |}.

(** [atomic.CompareAndSwapInt32(&c.Connected, 0, 1)] *)
Definition Start (c : defaultHubConnection) : defaultHubConnection :=
  {| Connected := if decide (Connected c = 0) then 1 else Connected c;
     Conn := Conn c |}.

Definition IsConnected (c : defaultHubConnection) : bool :=
  bool_decide (Connected c = 1).

Definition Close (error : string) (c : defaultHubConnection) : defaultHubConnection :=
  let c := {| Connected := 0; Conn := Conn c |} in
  let closeMessage :=
    {| close_Type := 7; close_Error := error; close_AllowReconnect := true |} in
  send (MClose closeMessage) c.

Definition GetConnectionID (c : defaultHubConnection) : string :=
  ConnectionID (Conn c).

Definition SendInvocation (target : string) (args : list any)
    (c : defaultHubConnection) : defaultHubConnection :=
  let invocationMessage :=
    {| so_Type := 1; so_Target := target; so_Arguments := args |} in
  send (MSendOnlyInvocation invocationMessage) c.

Definition Ping (c : defaultHubConnection) : defaultHubConnection :=
  let pingMessage := {| hub_Type := 6 |} in
  send (MHub pingMessage) c.

Definition Completion (id : string) (result : any) (error : string)
    (c : defaultHubConnection) : defaultHubConnection :=
  let completionMessage :=
    {| cpl_Type := 3; cpl_InvocationID := id;
       cpl_Result := result; cpl_Error := error |} in
  send (MCompletion completionMessage) c.

Definition StreamItem (id : string) (item : any)
    (c : defaultHubConnection) : defaultHubConnection :=
  let streamItemMessage :=
    {| si_Type := 2; si_InvocationID := id; si_Item := item |} in
  send (MStreamItem streamItemMessage) c.

(** The loop of [Receive].  [buf], [data] and [n] are the locals of the
    call; [conn] is what the transport still has to deliver. *)
Fixpoint Receive_loop (fuel : nat) (conn : Reader) (buf data : bytes) (n : nat)
    : option (option message * option error * Reader) :=
  match fuel with
  | O => None
  | S fuel' =>
      let '(message, complete, err, buf) := ReadMessage buf in
      if negb complete then
        let buf := buf ++ firstn n data in
        let '(n, err, data, conn) := Read conn data in
        match err with
        | None => Receive_loop fuel' conn (buf ++ firstn n data) data n
        | Some e => Some (None, Some e, conn)
        end
      else Some (message, err, conn)
  end.

Definition Receive_reader (conn : Reader)
    : option (option message * option error * Reader) :=
  Receive_loop (S (reader_size conn)) conn [] (zeros 4096) 0%nat.

(** [Receive]: the message, the error, and the connection afterwards. *)
Definition Receive (c : defaultHubConnection)
    : option (option message * option error * defaultHubConnection) :=
  match Receive_reader (conn_reader (Conn c)) with
  | None => None
  | Some (m, err, r) =>
      Some (m, err,
            {| Connected := Connected c;
               Conn := {| conn_reader := r;
                          conn_writer := conn_writer (Conn c);
                          ConnectionID := ConnectionID (Conn c) |} |})
  end.

(** The results of [n] successive calls of [Receive]. *)
Fixpoint Receive_repeatedly (n : nat) (c : defaultHubConnection)
    : list (option message * option error) :=
  match n with
  | O => []
  | S n' =>
      match Receive c with
      | Some (m, err, c') => (m, err) :: Receive_repeatedly n' c'
      | None => []
      end
  end.
End HubConnection.
End HubConnection.

(** ** Numeric conversions *)

(** What Go leaves to the implementation, and [fmt.Sprint] on a float. *)
Class Platform := {
  int_bits : Z;                                    (* width of int and uint *)
  (** the result of converting a float that truncates to nothing
      representable in the integer type (also NaN and infinities) *)
  convert_unrepresentable : intKind -> float64 -> Z;
  fmt_Sprint_float64 : float64 -> string
}.

Section Conversions.
Context `{Platform}.

Definition bits (k : intKind) : Z :=
  match k with
  | Int | Uint => int_bits
  | Int8 | Uint8 => 8
  | Int16 | Uint16 => 16
  | Int32 | Uint32 => 32
  | Int64 | Uint64 => 64
  end.

Definition signed (k : intKind) : bool :=
  match k with
  | Int | Int8 | Int16 | Int32 | Int64 => true
  | _ => false
  end.

Definition min_int (k : intKind) : Z :=
  if signed k then - 2 ^ (bits k - 1) else 0.
Definition max_int (k : intKind) : Z :=
  if signed k then 2 ^ (bits k - 1) - 1 else 2 ^ bits k - 1.

(** The integer part of a finite float: the fraction is discarded
    (truncation towards zero). *)
Definition float_trunc (f : float64) : option Z :=
  match f with
  | S754_zero _ => Some 0
  | S754_finite s m e =>
      let a := if 0 <=? e then Z.pos m * 2 ^ e else Z.pos m / 2 ^ (- e) in
      Some (if s then - a else a)
  | S754_infinity _ | S754_nan => None
  end.

(** The conversion [T(number)] for an integer type [T]. *)
Definition float64_to_int (k : intKind) (number : float64) : Z :=
  match float_trunc number with
  | Some z =>
      if (min_int k <=? z) && (z <=? max_int k) then z
      else convert_unrepresentable k number
  | None => convert_unrepresentable k number
  end.

(** The conversion [float32(number)]: round to nearest even in binary32. *)
Definition float64_to_float32 (number : float64) : float32 :=
  match number with
  | S754_finite s m e => binary_round 24 128 s m e
  | _ => number
  end.

(** [convertNumberToChannelType]: a type switch on the dynamic type of
    the channel's zero element. *)
Definition convertNumberToChannelType (chanElm : any) (number : float64)
    : any * bool :=
  match chanElm with
  | VInt k _ => (VInt k (float64_to_int k number), true)
  | VFloat32 _ => (VFloat32 (float64_to_float32 number), true)
  | VFloat64 _ => (VFloat64 number, true)
  | VString _ => (VString (fmt_Sprint_float64 number), true)
  | _ => (VFloat64 number, false)
  end.

(** The numeric element types a number is narrowed to: the integer and the
    floating-point types.  (The type switch has no case for [uintptr] and
    the complex types.) *)
Definition basic_numeric (t : gotype) : bool :=
  match t with
  | TInt _ | TFloat32 | TFloat64 => true
  | _ => false
  end.

(** The value a decoded number becomes on a channel of [t]. *)
Definition narrowed (t : gotype) (f : float64) : any :=
  (convertNumberToChannelType (zero_value t) f).1.
End Conversions.

(** ** Channels *)

(** An unbuffered channel made by [reflect.MakeChan]: its element type,
    the values sent on it so far (in order), and whether it is closed. *)
Record channel := {
  chan_elem : gotype;
  chan_sent : list any;
  chan_closed : bool }.

(** Composite types have no name of their own; every other type does. *)
Definition has_name (t : gotype) : bool :=
  match t with
  | TSlice _ | TArray _ _ | TMap _ _ | TChan _ _ => false
  | _ => true
  end.

Fixpoint underlying (t : gotype) : gotype :=
  match t with
  | TNamed _ u => underlying u
  | TRawMessage => TSlice (TInt Uint8)
  | _ => t
  end.

(** Assignability of a value of type [v] to a variable of type [t]. *)
Definition assignable (v t : gotype) : bool :=
  bool_decide (v = t)
  || bool_decide (kind_of t = KInterface)
  || (bool_decide (underlying v = underlying t)
      && (negb (has_name v) || negb (has_name t))).

(** [ch.Send(x)] for [x = reflect.ValueOf(v)]: panics on a closed channel
    and on a value that is not assignable to the element type. *)
Definition chan_Send (ch : channel) (v : any) : outcome channel :=
  match TypeOf v with
  | None => Panic "reflect: call of reflect.Value.Send on zero Value"
  | Some tv =>
      if negb (assignable tv (chan_elem ch)) then
        Panic "reflect.Value.Send: value is not assignable to the element type"
      else if chan_closed ch then Panic "send on closed channel"
      else Ret {| chan_elem := chan_elem ch;
                  chan_sent := chan_sent ch ++ [v];
                  chan_closed := false |}
  end.

Definition chan_Close (ch : channel) : outcome channel :=
  if chan_closed ch then Panic "close of closed channel"
  else Ret {| chan_elem := chan_elem ch;
              chan_sent := chan_sent ch;
              chan_closed := true |}.

(** [argType.ChanDir()] and [argType.Elem()] of a channel type. *)
Fixpoint type_ChanDir (t : gotype) : option ChanDir :=
  match t with
  | TChan d _ => Some d
  | TNamed _ u => type_ChanDir u
  | _ => None
  end.

Fixpoint type_Elem (t : gotype) : option gotype :=
  match t with
  | TChan _ e | TSlice e | TArray _ e | TMap _ e => Some e
  | TRawMessage => Some (TInt Uint8)
  | TNamed _ u => type_Elem u
  | _ => None
  end.

(** ** The stream client

    [upstreamChannels] maps a stream id to a channel; channels are
    references, so they live in [chans] and the map holds addresses. *)
Record streamClient := {
  chans : gmap nat channel;
  next_chan : nat;
  upstreamChannels : gmap string nat }.

Definition newStreamClient : streamClient :=
  {| chans := ∅; next_chan := 0; upstreamChannels := ∅ |}.

Definition set_chan (u : streamClient) (a : nat) (ch : channel) : streamClient :=
  {| chans := <[a := ch]> (chans u);
     next_chan := next_chan u;
     upstreamChannels := upstreamChannels u |}.

(** Every registered stream id refers to a channel that was made, and
    addresses from [next_chan] on are unused. *)
Definition registry_ok (u : streamClient) : Prop :=
  (forall id a, upstreamChannels u !! id = Some a -> is_Some (chans u !! a))
  /\ (forall a, is_Some (chans u !! a) -> (a < next_chan u)%nat).

Module StreamClient.
Section StreamClient.
Context `{Platform}.

(** Returns [arg] (the address of the new channel, [None] for the zero
    [reflect.Value]), [canClientStreaming], [err] and the client. *)
Definition buildChannelArgument (u : streamClient) (invocation : invocationMessage)
    (argType : gotype) (chanCount : nat)
    : option nat * bool * option error * streamClient :=
  if bool_decide (kind_of argType ≠ KChan)
     || bool_decide (type_ChanDir argType = Some SendDir) then
    (None, false, None, u)
  else if (chanCount <? length (inv_StreamIds invocation))%nat then
    let a := next_chan u in
    let arg := {| chan_elem := default TInterface (type_Elem argType);
                  chan_sent := [];
                  chan_closed := false |} in
    let id := default "" (inv_StreamIds invocation !! chanCount) in
    (Some a, true, None,
     {| chans := <[a := arg]> (chans u);
        next_chan := S a;
        upstreamChannels := <[id := a]> (upstreamChannels u) |})
  else
    (None, true,
     Some (fmtError ("method " +:+ inv_Target invocation +:+
                     " has more chan parameters than the client will stream")),
     u).

Definition is_sequence (k : Kind) : bool :=
  match k with
  | KSlice | KArray => true
  | _ => false
  end.

Definition receiveStreamItem (u : streamClient) (streamItem : streamItemMessage)
    : outcome (option error * streamClient) :=
  match upstreamChannels u !! si_InvocationID streamItem with
  | Some a =>
      match chans u !! a with
      | None => Panic "no such channel"   (* excluded by [registry_ok] *)
      | Some upChan =>
          let chanElm := zero_value (chan_elem upChan) in
          match si_Item streamItem with
          | VFloat64 f =>
              match convertNumberToChannelType chanElm f with
              | (chanVal, true) =>
                  match chan_Send upChan chanVal with
                  | Ret ch => Ret (None, set_chan u a ch)
                  | Panic r => Panic r
                  end
              | (_, false) => Ret (None, u)
              end
          | item =>
              match TypeOf item with
              | None => Panic "nil pointer dereference"
              | Some t =>
                  if is_sequence (kind_of t) then
                    match TypeOf chanElm with
                    | None => Panic "nil pointer dereference"
                    | Some tc =>
                        if is_sequence (kind_of tc) then Ret (None, u)
                        else Ret (Some (fmtError
                               "stream item of kind slice paired with channel of another type"), u)
                    end
                  else if negb (assignable t (chan_elem upChan)) then
                    (* [Send] panics with a string, which is no error: the
                       assertion [err.(error)] of the deferred function
                       panics in turn, and nothing recovers that *)
                    Panic "interface conversion: interface {} is string, not error"
                  else
                    (* the goroutine with its deferred recover: the panic
                       of a send on a closed channel is a runtime error *)
                    match chan_Send upChan item with
                    | Ret ch => Ret (None, set_chan u a ch)
                    | Panic r => Ret (Some (recovered r), u)
                    end
              end
          end
      end
  | None => Ret (None, u)
  end.

Definition receiveCompletionItem (u : streamClient) (completion : completionMessage)
    : outcome streamClient :=
  match upstreamChannels u !! cpl_InvocationID completion with
  | Some a =>
      match chans u !! a with
      | None => Panic "no such channel"   (* excluded by [registry_ok] *)
      | Some channel =>
          match chan_Close channel with
          | Ret ch =>
              Ret {| chans := <[a := ch]> (chans u);
                     next_chan := next_chan u;
                     upstreamChannels :=
                       delete (cpl_InvocationID completion) (upstreamChannels u) |}
          | Panic r => Panic r
          end
      end
  | None => Ret u
  end.
End StreamClient.
End StreamClient.

(** ** Binding the streaming parameters of a method *)

Module Dispatch.

(** A parameter is a streaming parameter when [buildChannelArgument]
    treats it as one: a channel the method can receive from. *)
Definition is_streaming (t : gotype) : bool :=
  negb (bool_decide (kind_of t ≠ KChan)
        || bool_decide (type_ChanDir t = Some SendDir)).

Definition streamingParams (params : list gotype) : nat :=
  length (filter (λ t, is_streaming t = true) params).

(** Modelled from the spec: the dispatcher is not part of these sources.
    This is the loop of section 4.4, step 3, over the parameters of the
    target method: every parameter goes through [buildChannelArgument]
    with the number of streaming parameters bound so far, and an error
    stops the loop.  Returns the error, that number, and the client. *)
Fixpoint bindChannelArguments_loop (u : streamClient) (invocation : invocationMessage)
    (params : list gotype) (chanCount : nat) : option error * nat * streamClient :=
  match params with
  | [] => (None, chanCount, u)
  | argType :: params' =>
      let '(_, canClientStreaming, err, u') :=
        StreamClient.buildChannelArgument u invocation argType chanCount in
      match err with
      | Some e => (Some e, chanCount, u')
      | None =>
          bindChannelArguments_loop u' invocation params'
            (if canClientStreaming then S chanCount else chanCount)
      end
  end.

(** Modelled from the spec: step 3 of section 4.4 as a whole.  After the
    loop, an invocation that declares more stream ids than the method has
    streaming parameters is an error (the [TooManyStreamsError] of the
    taxonomy). *)
Definition bindChannelArguments (u : streamClient) (invocation : invocationMessage)
    (params : list gotype) : option error * nat * streamClient :=
  match bindChannelArguments_loop u invocation params 0 with
  | (Some e, chanCount, u') => (Some e, chanCount, u')
  | (None, chanCount, u') =>
      if (chanCount <? length (inv_StreamIds invocation))%nat then
        (Some (fmtError ("method " +:+ inv_Target invocation +:+
                         " has less chan parameters than the client will stream")),
         chanCount, u')
      else (None, chanCount, u')
  end.

(** Modelled from the spec: what the dispatcher of section 4.4 does with
    an invocation once its target method is found: the call is aborted
    with an error completion, or the method is invoked. *)
Inductive dispatch_result : Type :=
  | Aborted (completion : completionMessage)
  | Invoked.

(** Modelled from the spec: section 4.4, "the call is aborted with an
    error Completion": the completion carries the invocation id and the
    text of the error, and the method is not invoked. *)
Definition dispatch (u : streamClient) (invocation : invocationMessage)
    (params : list gotype) : dispatch_result * streamClient :=
  match bindChannelArguments u invocation params with
  | (Some e, _, u') =>
      (Aborted {| cpl_Type := 3;
                  cpl_InvocationID := inv_InvocationID invocation;
                  cpl_Result := Nil;
                  cpl_Error := error_text e |}, u')
  | (None, _, u') => (Invoked, u')
  end.
End Dispatch.

(** ** The wire format: JSON text

    Modelled from the spec: the easyjson code generated for the message
    structs and the JSON library are not part of these sources.  This is the
    textual encoding of section 6: every frame is a JSON object whose fields
    are those of the table there, optional fields being left out when they
    are empty.  Numbers are restricted to integers. *)

Module Wire.

#[warnings="-register-all"]
Inductive json : Type :=
  | JNull
  | JBool (b : bool)
  | JNumber (z : Z)
  | JString (s : bytes)
  | JArray (items : list json)
  | JObject (members : list (bytes * json)).

Definition text (s : string) : bytes := String.list_byte_of_string s.
Definition go_string (b : bytes) : string := String.string_of_list_byte b.

(** A JSON text written with ['] for the double quote. *)
Definition json_text (s : string) : bytes :=
  map (λ c, match c with x27 => x22 | _ => c end) (text s).

(** *** Printing *)

Definition hex_digit (n : N) : byte :=
  match Byte.of_N (if (n <? 10)%N then 48 + n else 87 + n)%N with
  | Some b => b
  | None => x30
  end.

Definition escape_byte (c : byte) : bytes :=
  match c with
  | x22 => [x5c; x22]
  | x5c => [x5c; x5c]
  | _ =>
      let n := Byte.to_N c in
      if (n <? 32)%N
      then [x5c; x75; x30; x30; hex_digit (n / 16); hex_digit (n mod 16)]
      else [c]
  end.

Definition print_string (s : bytes) : bytes :=
  [x22] ++ concat (map escape_byte s) ++ [x22].

Definition print_Z (z : Z) : bytes :=
  text (NilZero.string_of_int (Z.to_int z)).

Fixpoint join (sep : bytes) (l : list bytes) : bytes :=
  match l with
  | [] => []
  | [x] => x
  | x :: l' => x ++ sep ++ join sep l'
  end.

Fixpoint print (j : json) : bytes :=
  match j with
  | JNull => text "null"
  | JBool true => text "true"
  | JBool false => text "false"
  | JNumber z => print_Z z
  | JString s => print_string s
  | JArray items => [x5b] ++ join [x2c] (map print items) ++ [x5d]
  | JObject members =>
      [x7b] ++ join [x2c] (map (λ m, print_string m.1 ++ [x3a] ++ print m.2) members)
      ++ [x7d]
  end.

(** *** Parsing *)

Definition is_ws (c : byte) : bool :=
  match c with
  | x20 | x09 | x0a | x0d => true
  | _ => false
  end.

Fixpoint skip_ws (s : bytes) : bytes :=
  match s with
  | c :: r => if is_ws c then skip_ws r else s
  | [] => []
  end.

Definition hex_value (c : byte) : option N :=
  let n := Byte.to_N c in
  if (48 <=? n)%N && (n <=? 57)%N then Some (n - 48)%N
  else if (97 <=? n)%N && (n <=? 102)%N then Some (n - 87)%N
  else if (65 <=? n)%N && (n <=? 70)%N then Some (n - 55)%N
  else None.

Definition unescape_u (h1 h2 h3 h4 : byte) : option byte :=
  match hex_value h1, hex_value h2, hex_value h3, hex_value h4 with
  | Some 0%N, Some 0%N, Some a, Some b => Byte.of_N (16 * a + b)%N
  | _, _, _, _ => None
  end.

(** The rest of a string literal after its opening quote. *)
Fixpoint parse_string_body (s acc : bytes) : option (bytes * bytes) :=
  match s with
  | [] => None
  | x22 :: r => Some (rev acc, r)
  | x5c :: r =>
      match r with
      | x75 :: h1 :: h2 :: h3 :: h4 :: r' =>
          match unescape_u h1 h2 h3 h4 with
          | Some c => parse_string_body r' (c :: acc)
          | None => None
          end
      | c :: r' =>
          match c with
          | x22 => parse_string_body r' (x22 :: acc)
          | x5c => parse_string_body r' (x5c :: acc)
          | x2f => parse_string_body r' (x2f :: acc)
          | x62 => parse_string_body r' (x08 :: acc)
          | x66 => parse_string_body r' (x0c :: acc)
          | x6e => parse_string_body r' (x0a :: acc)
          | x72 => parse_string_body r' (x0d :: acc)
          | x74 => parse_string_body r' (x09 :: acc)
          | _ => None
          end
      | [] => None
      end
  | c :: r =>
      if (Byte.to_N c <? 32)%N then None else parse_string_body r (c :: acc)
  end.

Definition digit_value (c : byte) : option Z :=
  let n := Z.of_N (Byte.to_N c) in
  if (48 <=? n) && (n <=? 57) then Some (n - 48) else None.

Fixpoint parse_digits (s : bytes) (acc : Z) : Z * bytes :=
  match s with
  | c :: r =>
      match digit_value c with
      | Some d => parse_digits r (10 * acc + d)
      | None => (acc, s)
      end
  | [] => (acc, [])
  end.

(** An integer literal; a fraction or an exponent is refused. *)
Definition parse_number (s : bytes) : option (Z * bytes) :=
  let '(neg, s1) := match s with x2d :: r => (true, r) | _ => (false, s) end in
  match s1 with
  | c :: _ =>
      match digit_value c with
      | Some _ =>
          let '(n, r) := parse_digits s1 0 in
          match r with
          | x2e :: _ | x65 :: _ | x45 :: _ => None
          | _ => Some (if neg then - n else n, r)
          end
      | None => None
      end
  | [] => None
  end.

Fixpoint parse_value (fuel : nat) (s : bytes) : option (json * bytes) :=
  match fuel with
  | O => None
  | S fuel' =>
      match skip_ws s with
      | x6e :: x75 :: x6c :: x6c :: r => Some (JNull, r)
      | x74 :: x72 :: x75 :: x65 :: r => Some (JBool true, r)
      | x66 :: x61 :: x6c :: x73 :: x65 :: r => Some (JBool false, r)
      | x22 :: r =>
          match parse_string_body r [] with
          | Some (str, r') => Some (JString str, r')
          | None => None
          end
      | x5b :: r =>
          match skip_ws r with
          | x5d :: r' => Some (JArray [], r')
          | _ =>
              match parse_items fuel' r with
              | Some (items, r') => Some (JArray items, r')
              | None => None
              end
          end
      | x7b :: r =>
          match skip_ws r with
          | x7d :: r' => Some (JObject [], r')
          | _ =>
              match parse_members fuel' r with
              | Some (members, r') => Some (JObject members, r')
              | None => None
              end
          end
      | s' =>
          match parse_number s' with
          | Some (z, r) => Some (JNumber z, r)
          | None => None
          end
      end
  end
with parse_items (fuel : nat) (s : bytes) : option (list json * bytes) :=
  match fuel with
  | O => None
  | S fuel' =>
      match parse_value fuel' s with
      | Some (v, r) =>
          match skip_ws r with
          | x2c :: r' =>
              match parse_items fuel' r' with
              | Some (items, r'') => Some (v :: items, r'')
              | None => None
              end
          | x5d :: r' => Some ([v], r')
          | _ => None
          end
      | None => None
      end
  end
with parse_members (fuel : nat) (s : bytes) : option (list (bytes * json) * bytes) :=
  match fuel with
  | O => None
  | S fuel' =>
      match skip_ws s with
      | x22 :: r =>
          match parse_string_body r [] with
          | Some (key, r1) =>
              match skip_ws r1 with
              | x3a :: r2 =>
                  match parse_value fuel' r2 with
                  | Some (v, r3) =>
                      match skip_ws r3 with
                      | x2c :: r4 =>
                          match parse_members fuel' r4 with
                          | Some (members, r5) => Some ((key, v) :: members, r5)
                          | None => None
                          end
                      | x7d :: r4 => Some ([(key, v)], r4)
                      | _ => None
                      end
                  | None => None
                  end
              | _ => None
              end
          | None => None
          end
      | _ => None
      end
  end.

(** A whole JSON text: one value, then only white space. *)
Definition parse (s : bytes) : option json :=
  match parse_value (S (length s)) s with
  | Some (v, r) =>
      match skip_ws r with
      | [] => Some v
      | _ => None
      end
  | None => None
  end.

(** *** Values of type [interface{}] *)

Definition float_of_Z (z : Z) : float64 := binary_normalize 53 1024 z 0 false.

Definition Z_of_float (f : float64) : option Z :=
  match f with
  | S754_zero _ => Some 0
  | S754_finite s m e =>
      let sign (a : Z) := if s then - a else a in
      if 0 <=? e then Some (sign (Z.pos m * 2 ^ e))
      else if Z.pos m mod 2 ^ (- e) =? 0 then Some (sign (Z.pos m / 2 ^ (- e)))
      else None
  | _ => None
  end.

(** Decoding into an [interface{}]. *)
Fixpoint any_of_json (j : json) : any :=
  match j with
  | JNull => Nil
  | JBool b => VBool b
  | JNumber z => VFloat64 (float_of_Z z)
  | JString s => VString (go_string s)
  | JArray items => VSlice TInterface (map any_of_json items)
  | JObject members =>
      VMap TString TInterface
        (map (λ m, (VString (go_string m.1), any_of_json m.2)) members)
  end.

Fixpoint json_of_any (v : any) : option json :=
  let fix all (l : list any) : option (list json) :=
    match l with
    | [] => Some []
    | x :: l' =>
        match json_of_any x, all l' with
        | Some j, Some js => Some (j :: js)
        | _, _ => None
        end
    end in
  let fix entries (l : list (any * any)) : option (list (bytes * json)) :=
    match l with
    | [] => Some []
    | (VString k, x) :: l' =>
        match json_of_any x, entries l' with
        | Some j, Some js => Some ((text k, j) :: js)
        | _, _ => None
        end
    | _ => None
    end in
  match v with
  | Nil => Some JNull
  | VBool b => Some (JBool b)
  | VInt _ z | VUintptr z => Some (JNumber z)
  | VFloat32 f | VFloat64 f => option_map JNumber (Z_of_float f)
  | VComplex64 _ _ | VComplex128 _ _ | VChan _ _ _ => None
  | VString s => Some (JString (text s))
  | VRawMessage raw => parse raw
  | VSlice _ l | VArray _ l => option_map JArray (all l)
  | VMap _ _ l => option_map JObject (entries l)
  | VNamed _ u => json_of_any u
  end.

(** Decoding into a variable of type [t]. *)
Fixpoint decode_as (t : gotype) (j : json) : option any :=
  match t, j with
  | TBool, JBool b => Some (VBool b)
  | TInt k, JNumber z => Some (VInt k z)
  | TFloat32, JNumber z => Some (VFloat32 (float_of_Z z))
  | TFloat64, JNumber z => Some (VFloat64 (float_of_Z z))
  | TString, JString s => Some (VString (go_string s))
  | TInterface, _ => Some (any_of_json j)
  | TRawMessage, _ => Some (VRawMessage (print j))
  | TSlice e, JArray items =>
      option_map (VSlice e)
        ((fix all (l : list json) : option (list any) :=
            match l with
            | [] => Some []
            | x :: l' =>
                match decode_as e x, all l' with
                | Some v, Some vs => Some (v :: vs)
                | _, _ => None
                end
            end) items)
  | TNamed n u, _ => option_map (VNamed n) (decode_as u j)
  | _, JNull => Some (zero_value t)
  | _, _ => None
  end.

(** *** The message structs *)

Fixpoint bytes_eqb (a b : bytes) : bool :=
  match a, b with
  | [], [] => true
  | x :: a', y :: b' => Byte.eqb x y && bytes_eqb a' b'
  | _, _ => false
  end.

Fixpoint member (k : bytes) (ms : list (bytes * json)) : option json :=
  match ms with
  | [] => None
  | (k', v) :: ms' => if bytes_eqb k k' then Some v else member k ms'
  end.

Definition mismatch : option error := Some (decodeError "cannot unmarshal field").

Definition int_field (k : string) (ms : list (bytes * json)) : Z * option error :=
  match member (text k) ms with
  | None | Some JNull => (0, None)
  | Some (JNumber z) => (z, None)
  | Some _ => (0, mismatch)
  end.

Definition string_field (k : string) (ms : list (bytes * json)) : string * option error :=
  match member (text k) ms with
  | None | Some JNull => (""%string, None)
  | Some (JString s) => (go_string s, None)
  | Some _ => (""%string, mismatch)
  end.

Definition bool_field (k : string) (ms : list (bytes * json)) : bool * option error :=
  match member (text k) ms with
  | None | Some JNull => (false, None)
  | Some (JBool b) => (b, None)
  | Some _ => (false, mismatch)
  end.

Definition any_field (k : string) (ms : list (bytes * json)) : any :=
  match member (text k) ms with
  | None => Nil
  | Some j => any_of_json j
  end.

Definition raw_list_field (k : string) (ms : list (bytes * json))
    : list bytes * option error :=
  match member (text k) ms with
  | None | Some JNull => ([], None)
  | Some (JArray items) => (map print items, None)
  | Some _ => ([], mismatch)
  end.

Definition string_of_json (j : json) : option string :=
  match j with
  | JString s => Some (go_string s)
  | _ => None
  end.

Definition string_list_field (k : string) (ms : list (bytes * json))
    : list string * option error :=
  match member (text k) ms with
  | None | Some JNull => ([], None)
  | Some (JArray items) =>
      match mapM string_of_json items with
      | Some l => (l, None)
      | None => ([], mismatch)
      end
  | Some _ => ([], mismatch)
  end.

Definition first_error (errs : list (option error)) : option error :=
  match filter is_Some errs with
  | e :: _ => e
  | [] => None
  end.

(** The text must be a JSON object (or [null], which leaves the zero
    struct). *)
Definition with_object {T : Type} (data : bytes) (zero : T)
    (f : list (bytes * json) -> T * option error) : T * option error :=
  match parse data with
  | None => (zero, Some (decodeError "invalid JSON"))
  | Some (JObject ms) => f ms
  | Some JNull => (zero, None)
  | Some _ => (zero, Some (decodeError "cannot unmarshal into a struct"))
  end.

Definition hubMessage_UnmarshalJSON (data : bytes) : hubMessage * option error :=
  with_object data {| hub_Type := 0 |} (λ ms,
    let '(t, e) := int_field "type" ms in
    ({| hub_Type := t |}, e)).

Definition jsonInvocationMessage_UnmarshalJSON (data : bytes)
    : jsonInvocationMessage * option error :=
  with_object data
    {| jinv_Type := 0; jinv_Target := ""; jinv_InvocationID := "";
       jinv_Arguments := []; jinv_StreamIds := [] |} (λ ms,
    let '(t, e1) := int_field "type" ms in
    let '(target, e2) := string_field "target" ms in
    let '(id, e3) := string_field "invocationId" ms in
    let '(args, e4) := raw_list_field "arguments" ms in
    let '(ids, e5) := string_list_field "streamIds" ms in
    ({| jinv_Type := t; jinv_Target := target; jinv_InvocationID := id;
        jinv_Arguments := args; jinv_StreamIds := ids |},
     first_error [e1; e2; e3; e4; e5])).

Definition streamItemMessage_UnmarshalJSON (data : bytes)
    : streamItemMessage * option error :=
  with_object data {| si_Type := 0; si_InvocationID := ""; si_Item := Nil |} (λ ms,
    let '(t, e1) := int_field "type" ms in
    let '(id, e2) := string_field "invocationId" ms in
    ({| si_Type := t; si_InvocationID := id; si_Item := any_field "item" ms |},
     first_error [e1; e2])).

Definition completionMessage_UnmarshalJSON (data : bytes)
    : completionMessage * option error :=
  with_object data
    {| cpl_Type := 0; cpl_InvocationID := ""; cpl_Result := Nil; cpl_Error := "" |}
    (λ ms,
    let '(t, e1) := int_field "type" ms in
    let '(id, e2) := string_field "invocationId" ms in
    let '(err, e3) := string_field "error" ms in
    ({| cpl_Type := t; cpl_InvocationID := id;
        cpl_Result := any_field "result" ms; cpl_Error := err |},
     first_error [e1; e2; e3])).

Definition cancelInvocationMessage_UnmarshalJSON (data : bytes)
    : cancelInvocationMessage * option error :=
  with_object data {| cancel_Type := 0; cancel_InvocationID := "" |} (λ ms,
    let '(t, e1) := int_field "type" ms in
    let '(id, e2) := string_field "invocationId" ms in
    ({| cancel_Type := t; cancel_InvocationID := id |}, first_error [e1; e2])).

Definition closeMessage_UnmarshalJSON (data : bytes) : closeMessage * option error :=
  with_object data
    {| close_Type := 0; close_Error := ""; close_AllowReconnect := false |} (λ ms,
    let '(t, e1) := int_field "type" ms in
    let '(err, e2) := string_field "error" ms in
    let '(allow, e3) := bool_field "allowReconnect" ms in
    ({| close_Type := t; close_Error := err; close_AllowReconnect := allow |},
     first_error [e1; e2; e3])).

Definition Unmarshal (raw : bytes) (t : gotype) : any * option error :=
  match parse raw with
  | None => (zero_value t, Some (decodeError "invalid JSON"))
  | Some j =>
      match decode_as t j with
      | Some v => (v, None)
      | None => (zero_value t, Some (decodeError "cannot unmarshal value"))
      end
  end.

(** A field, left out when [omit] holds. *)
Definition field (k : string) (j : json) (omit : bool) : list (bytes * json) :=
  if omit then [] else [(text k, j)].

Definition string_is_empty (s : string) : bool := bool_decide (s = ""%string).

Definition json_strings (l : list string) : json :=
  JArray (map (λ s, JString (text s)) l).

Definition arguments_field (args : list any) : option (list (bytes * json)) :=
  option_map (λ js, [(text "arguments", JArray js)]) (mapM json_of_any args).

Definition marshal (msg : message) : option json :=
  match msg with
  | MHub m => Some (JObject [(text "type", JNumber (hub_Type m))])
  | MInvocation m =>
      args ← arguments_field (inv_Arguments m);
      Some (JObject (
        [(text "type", JNumber (inv_Type m));
         (text "target", JString (text (inv_Target m)))]
        ++ field "invocationId" (JString (text (inv_InvocationID m)))
             (string_is_empty (inv_InvocationID m))
        ++ args
        ++ field "streamIds" (json_strings (inv_StreamIds m))
             (bool_decide (inv_StreamIds m = []))))
  | MSendOnlyInvocation m =>
      args ← arguments_field (so_Arguments m);
      Some (JObject (
        [(text "type", JNumber (so_Type m));
         (text "target", JString (text (so_Target m)))] ++ args))
  | MStreamItem m =>
      item ← json_of_any (si_Item m);
      Some (JObject
        [(text "type", JNumber (si_Type m));
         (text "invocationId", JString (text (si_InvocationID m)));
         (text "item", item)])
  | MCompletion m =>
      result ← json_of_any (cpl_Result m);
      Some (JObject (
        [(text "type", JNumber (cpl_Type m));
         (text "invocationId", JString (text (cpl_InvocationID m)))]
        ++ field "result" result
             match cpl_Result m with Nil => true | _ => false end
        ++ field "error" (JString (text (cpl_Error m)))
             (string_is_empty (cpl_Error m))))
  | MCancelInvocation m =>
      Some (JObject
        [(text "type", JNumber (cancel_Type m));
         (text "invocationId", JString (text (cancel_InvocationID m)))])
  | MClose m =>
      Some (JObject (
        [(text "type", JNumber (close_Type m))]
        ++ field "error" (JString (text (close_Error m)))
             (string_is_empty (close_Error m))
        ++ field "allowReconnect" (JBool (close_AllowReconnect m))
             (negb (close_AllowReconnect m))))
  end.

#[global] Instance wire_JSON : JSON := {|
  Unmarshal_hubMessage := hubMessage_UnmarshalJSON;
  Unmarshal_jsonInvocationMessage := jsonInvocationMessage_UnmarshalJSON;
  Unmarshal_streamItemMessage := streamItemMessage_UnmarshalJSON;
  Unmarshal_completionMessage := completionMessage_UnmarshalJSON;
  Unmarshal_cancelInvocationMessage := cancelInvocationMessage_UnmarshalJSON;
  Unmarshal_closeMessage := closeMessage_UnmarshalJSON;
  Unmarshal_value := Unmarshal;
  MarshalEasyJSON := λ msg, option_map print (marshal msg);
  Encode := λ msg,
    match marshal msg with
    | Some j => inl (print j ++ [x0a])
    | None => inr (decodeError "json: unsupported value")
    end
|}.
End Wire.

(** ** A platform for the examples

    One admissible implementation: 64-bit [int], an unrepresentable
    conversion wraps around (zero for NaN and the infinities), and
    [fmt.Sprint] prints integral floats in decimal. *)

Definition example_width (k : intKind) : Z :=
  match k with
  | Int8 | Uint8 => 8
  | Int16 | Uint16 => 16
  | Int32 | Uint32 => 32
  | _ => 64
  end.

Definition example_wrap (k : intKind) (z : Z) : Z :=
  let w := example_width k in
  if signed k then (z + 2 ^ (w - 1)) mod 2 ^ w - 2 ^ (w - 1) else z mod 2 ^ w.

Definition example_platform : Platform := {|
  int_bits := 64;
  convert_unrepresentable := λ k f,
    match f with
    | S754_finite s m e =>
        let a := if 0 <=? e then Z.pos m * 2 ^ e else Z.pos m / 2 ^ (- e) in
        example_wrap k (if s then - a else a)
    | _ => 0
    end;
  fmt_Sprint_float64 := λ f,
    match Wire.Z_of_float f with
    | Some z => NilZero.string_of_int (Z.to_int z)
    | None => "NaN"
    end
|}.

(** ** Example data *)

Definition example_invocation : invocationMessage :=
  {| inv_Type := 1; inv_Target := "upload"; inv_InvocationID := "7";
     inv_Arguments := []; inv_StreamIds := ["s1"; "s2"] |}.

(** The client after binding [func(<-chan int, chan []int)] for
    [example_invocation]. *)
Definition example_client : streamClient :=
  (Dispatch.dispatch newStreamClient example_invocation
     [TChan RecvDir (TInt Int); TChan BothDir (TSlice (TInt Int))]).2.

(** 3.75 as a binary64 number. *)
Definition float_3_75 : float64 := S754_finite false 8444249301319680 (-51).

Definition is_RawMessage (v : any) : bool :=
  match v with
  | VRawMessage _ => true
  | _ => false
  end.

(** A started hub connection speaking the JSON protocol over a transport
    that delivers [chunks] and whose writes fail when [fails] is set. *)
Definition example_connection (chunks : Reader) (fails : bool) : defaultHubConnection :=
  @HubConnection.Start
    (@HubConnection.newHubConnection
       {| conn_reader := chunks;
          conn_writer := {| written := []; broken := fails |};
          ConnectionID := "c1" |}).

(** ** What the round trip asks of the JSON library *)

(** The raw payloads of an argument list, when every argument is one. *)
Fixpoint raw_arguments (args : list any) : option (list bytes) :=
  match args with
  | [] => Some []
  | VRawMessage raw :: args' =>
      match raw_arguments args' with
      | Some raws => Some (raw :: raws)
      | None => None
      end
  | _ => None
  end.

(** The type tags [ParseMessage] has a struct for. *)
Definition dispatched (t : Z) : Prop :=
  t = 1 \/ t = 4 \/ t = 2 \/ t = 3 \/ t = 5 \/ t = 7.

(** [decodes_to b m]: the library reads the text [b] back as the struct of
    [m] (first as the envelope, then fully typed), and the type tag of [m]
    is the one of its kind.  A send-only invocation has no decoder. *)
Definition decodes_to `{JSON} (b : bytes) (m : message) : Prop :=
  match m with
  | MHub h => Unmarshal_hubMessage b = (h, None) /\ ~ dispatched (hub_Type h)
  | MInvocation i =>
      Unmarshal_hubMessage b = ({| hub_Type := inv_Type i |}, None)
      /\ (inv_Type i = 1 \/ inv_Type i = 4)
      /\ match raw_arguments (inv_Arguments i) with
         | Some raws =>
             Unmarshal_jsonInvocationMessage b
             = ({| jinv_Type := inv_Type i; jinv_Target := inv_Target i;
                   jinv_InvocationID := inv_InvocationID i;
                   jinv_Arguments := raws;
                   jinv_StreamIds := inv_StreamIds i |}, None)
         | None => False
         end
  | MSendOnlyInvocation _ => False
  | MStreamItem s =>
      Unmarshal_hubMessage b = ({| hub_Type := si_Type s |}, None)
      /\ si_Type s = 2 /\ Unmarshal_streamItemMessage b = (s, None)
  | MCompletion c =>
      Unmarshal_hubMessage b = ({| hub_Type := cpl_Type c |}, None)
      /\ cpl_Type c = 3 /\ Unmarshal_completionMessage b = (c, None)
  | MCancelInvocation c =>
      Unmarshal_hubMessage b = ({| hub_Type := cancel_Type c |}, None)
      /\ cancel_Type c = 5 /\ Unmarshal_cancelInvocationMessage b = (c, None)
  | MClose c =>
      Unmarshal_hubMessage b = ({| hub_Type := close_Type c |}, None)
      /\ close_Type c = 7 /\ Unmarshal_closeMessage b = (c, None)
  end.

(** One message of every kind. *)
Definition example_messages : list message :=
  [ MInvocation {| inv_Type := 1; inv_Target := "simpleint"; inv_InvocationID := "666";
                   inv_Arguments := [VRawMessage (Wire.text "314")];
                   inv_StreamIds := [] |};
    MInvocation {| inv_Type := 4; inv_Target := "upload"; inv_InvocationID := "7";
                   inv_Arguments := [VRawMessage (Wire.text "[1,2]");
                                     VRawMessage (Wire.json_text "'x'")];
                   inv_StreamIds := ["s1"; "s2"] |};
    MStreamItem {| si_Type := 2; si_InvocationID := "s1";
                   si_Item := VFloat64 (Wire.float_of_Z 5) |};
    MCompletion {| cpl_Type := 3; cpl_InvocationID := "666";
                   cpl_Result := VFloat64 (Wire.float_of_Z 315); cpl_Error := "" |};
    MCompletion {| cpl_Type := 3; cpl_InvocationID := "555";
                   cpl_Result := Nil; cpl_Error := "cannot parse" |};
    MCancelInvocation {| cancel_Type := 5; cancel_InvocationID := "7" |};
    MHub {| hub_Type := 6 |};
    MClose {| close_Type := 7; close_Error := "bye"; close_AllowReconnect := true |} ].

(** ** Successive calls on one stream *)

(** The results of [n] successive calls of [ParseMessage] on one reader. *)
Fixpoint ParseMessage_repeatedly `{JSON} (n : nat) (buf : Reader)
    : list (option message * option error) :=
  match n with
  | O => []
  | S n' =>
      match JSONHubProtocol.ParseMessage buf with
      | Some (m, err, buf') => (m, err) :: ParseMessage_repeatedly n' buf'
      | None => []
      end
  end.

(** [WriteMessage] for every message of a list, in order, on one writer. *)
Fixpoint WriteMessages `{JSON} (ms : list message) (w : Writer) : Writer :=
  match ms with
  | [] => w
  | m :: ms' => WriteMessages ms' (JSONHubProtocol.WriteMessage m w).1
  end.

(** The results of [n] successive calls of [ReadMessage] on one buffer. *)
Fixpoint ReadMessage_repeatedly `{JSON} (n : nat) (buf : bytes)
    : list (option message * bool * option error) :=
  match n with
  | O => []
  | S n' =>
      let '(m, complete, err, buf') := JsonHubProtocol.ReadMessage buf in
      (m, complete, err) :: ReadMessage_repeatedly n' buf'
  end.

(** Two frames for the examples: a ping and a cancellation. *)
Definition ping_frame : bytes := Wire.json_text "{'type':6}".
Definition cancel_frame : bytes := Wire.json_text "{'type':5,'invocationId':'9'}".

(** ** Sequences of calls on a hub connection *)

(** The calls of the [hubConnection] interface that act on a connection. *)
Inductive hub_call : Type :=
  | CallStart
  | CallClose (error : string)
  | CallSendInvocation (target : string) (args : list any)
  | CallStreamItem (id : string) (item : any)
  | CallCompletion (id : string) (result : any) (error : string)
  | CallPing
  | CallReceive.

(** One call, as a step on the connection ([Receive]: its result dropped). *)
Definition do_call `{HubProtocol} (op : hub_call) (c : defaultHubConnection)
    : defaultHubConnection :=
  match op with
  | CallStart => HubConnection.Start c
  | CallClose error => HubConnection.Close error c
  | CallSendInvocation target args => HubConnection.SendInvocation target args c
  | CallStreamItem id item => HubConnection.StreamItem id item c
  | CallCompletion id result error => HubConnection.Completion id result error c
  | CallPing => HubConnection.Ping c
  | CallReceive =>
      match HubConnection.Receive c with
      | Some (_, _, c') => c'
      | None => c
      end
  end.

Definition do_calls `{HubProtocol} (ops : list hub_call) (c : defaultHubConnection)
    : defaultHubConnection :=
  fold_left (λ c op, do_call op c) ops c.

(** Whether the latest of the [Start] and [Close] calls was a [Start]. *)
Definition started_last (ops : list hub_call) (before : bool) : bool :=
  fold_left (λ b op, match op with
                     | CallStart => true
                     | CallClose _ => false
                     | _ => b
                     end) ops before.

(** The message a call hands to the protocol. *)
Definition message_of_call (op : hub_call) : option message :=
  match op with
  | CallStart | CallReceive => None
  | CallClose error =>
      Some (MClose {| close_Type := 7; close_Error := error;
                      close_AllowReconnect := true |})
  | CallSendInvocation target args =>
      Some (MSendOnlyInvocation
              {| so_Type := 1; so_Target := target; so_Arguments := args |})
  | CallStreamItem id item =>
      Some (MStreamItem {| si_Type := 2; si_InvocationID := id; si_Item := item |})
  | CallCompletion id result error =>
      Some (MCompletion {| cpl_Type := 3; cpl_InvocationID := id;
                           cpl_Result := result; cpl_Error := error |})
  | CallPing => Some (MHub {| hub_Type := 6 |})
  end.

(** The frame a call puts on the transport with the earlier JSON protocol:
    none when it sends nothing or when its message cannot be encoded. *)
Definition frame_of_call `{JSON} (op : hub_call) : option bytes :=
  match message_of_call op with
  | Some m =>
      match Encode m with
      | inl text => Some (text ++ [RS])
      | inr _ => None
      end
  | None => None
  end.

(** ** States of the stream client

    [client_ok]: the registry refers to channels that exist, every
    registered channel is open, and no channel is registered under two
    stream ids. *)
Definition client_ok (u : streamClient) : Prop :=
  registry_ok u
  /\ (forall id a ch, upstreamChannels u !! id = Some a -> chans u !! a = Some ch ->
        chan_closed ch = false)
  /\ (forall id1 id2 a, upstreamChannels u !! id1 = Some a ->
        upstreamChannels u !! id2 = Some a -> id1 = id2).

(** The element types that have a case in [convertNumberToChannelType]. *)
Definition convertible (t : gotype) : bool :=
  match t with
  | TInt _ | TFloat32 | TFloat64 | TString => true
  | _ => false
  end.

Definition is_float64 (v : any) : bool :=
  match v with
  | VFloat64 _ => true
  | _ => false
  end.

(** A second client for the examples: after binding
    [func(<-chan string, <-chan MyInt, <-chan interface{})]. *)
Definition example_invocation2 : invocationMessage :=
  {| inv_Type := 4; inv_Target := "collect"; inv_InvocationID := "8";
     inv_Arguments := []; inv_StreamIds := ["t1"; "t2"; "t3"] |}.

Definition example_client2 : streamClient :=
  (Dispatch.dispatch newStreamClient example_invocation2
     [TChan RecvDir TString; TChan RecvDir (TNamed "MyInt" (TInt Int));
      TChan RecvDir TInterface]).2.

(** Go's numeric types: the integer types, [uintptr], the floating-point
    types and the complex types. *)
Definition numeric (t : gotype) : bool :=
  match t with
  | TInt _ | TUintptr | TFloat32 | TFloat64 | TComplex64 | TComplex128 => true
  | _ => false
  end.

(** [z] is the finite number [(-1)^s * m * 2^e] with its fraction
    discarded, which is what Go's conversion of a floating-point number to
    an integer type yields. *)
Definition truncation (s : bool) (m : positive) (e : Z) (z : Z) : Prop :=
  (if s then z <= 0 else 0 <= z)
  /\ (0 <= e -> Z.abs z = Z.pos m * 2 ^ e)
  /\ (e < 0 -> Z.abs z * 2 ^ (- e) <= Z.pos m < (Z.abs z + 1) * 2 ^ (- e)).

(** The stream client of a method with the parameters [<-chan uintptr]
    and [<-chan complex128], streamed under the ids of
    [example_invocation]. *)
Definition example_client3 : streamClient :=
  (Dispatch.dispatch newStreamClient example_invocation
     [TChan RecvDir TUintptr; TChan RecvDir TComplex128]).2.

(** * Properties *)

Section StreamClientFacts.
Context `{Platform}.
Import StreamClient Dispatch.

Lemma buildChannelArgument_streaming u inv t c :
  is_streaming t = true ->
  (c < length (inv_StreamIds inv))%nat ->
  exists a u', buildChannelArgument u inv t c = (Some a, true, None, u').
Proof.
  unfold is_streaming, buildChannelArgument. intros Hs Hc.
  apply negb_true_iff in Hs. rewrite Hs.
  apply Nat.ltb_lt in Hc. rewrite Hc. eauto.
Qed.

Lemma buildChannelArgument_too_many u inv t c :
  is_streaming t = true ->
  (length (inv_StreamIds inv) <= c)%nat ->
  exists e, buildChannelArgument u inv t c = (None, true, Some e, u).
Proof.
  unfold is_streaming, buildChannelArgument. intros Hs Hc.
  apply negb_true_iff in Hs. rewrite Hs.
  apply Nat.ltb_ge in Hc. rewrite Hc. eauto.
Qed.

Lemma buildChannelArgument_other u inv t c :
  is_streaming t = false ->
  buildChannelArgument u inv t c = (None, false, None, u).
Proof.
  unfold is_streaming, buildChannelArgument. intros Hs.
  apply negb_false_iff in Hs. by rewrite Hs.
Qed.

Lemma streamingParams_cons t params :
  streamingParams (t :: params) =
    ((if is_streaming t then 1 else 0) + streamingParams params)%nat.
Proof.
  unfold streamingParams. rewrite filter_cons.
  destruct (is_streaming t); case_decide; simpl; congruence.
Qed.

Lemma buildChannelArgument_streaming_next u inv t c a u' :
  buildChannelArgument u inv t c = (Some a, true, None, u') ->
  next_chan u' = S (next_chan u).
Proof.
  unfold buildChannelArgument.
  destruct (_ || _); [discriminate|].
  destruct (_ <? _)%nat; [|discriminate]. by intros [= _ <-].
Qed.

Lemma bindChannelArguments_loop_ok u inv params c :
  (c + streamingParams params <= length (inv_StreamIds inv))%nat ->
  exists u', bindChannelArguments_loop u inv params c
             = (None, (c + streamingParams params)%nat, u')
             /\ next_chan u' = (next_chan u + streamingParams params)%nat.
Proof.
  revert u c. induction params as [|t params IH]; intros u c.
  - unfold streamingParams. simpl. rewrite !Nat.add_0_r. eauto.
  - rewrite streamingParams_cons. simpl. intros Hle.
    destruct (is_streaming t) eqn:Hs.
    + destruct (buildChannelArgument_streaming u inv t c Hs ltac:(lia))
        as (a & u' & Hb).
      pose proof (buildChannelArgument_streaming_next _ _ _ _ _ _ Hb) as Hn.
      rewrite Hb.
      destruct (IH u' (S c) ltac:(lia)) as (u'' & -> & Hn'').
      exists u''. split; [do 2 f_equal; lia | lia].
    + rewrite (buildChannelArgument_other u inv t c Hs). apply IH. lia.
Qed.

Lemma bindChannelArguments_loop_error u inv params c :
  (c <= length (inv_StreamIds inv))%nat ->
  is_Some (bindChannelArguments_loop u inv params c).1.1 <->
  (length (inv_StreamIds inv) < c + streamingParams params)%nat.
Proof.
  revert u c. induction params as [|t params IH]; intros u c Hle.
  - simpl. unfold streamingParams. simpl. split.
    + intros [e He]. discriminate.
    + lia.
  - rewrite streamingParams_cons. simpl.
    destruct (is_streaming t) eqn:Hs.
    + destruct (decide (c < length (inv_StreamIds inv))%nat) as [Hc|Hc].
      * destruct (buildChannelArgument_streaming u inv t c Hs Hc) as (a & u' & ->).
        rewrite IH; lia.
      * destruct (buildChannelArgument_too_many u inv t c Hs ltac:(lia)) as (e & ->).
        simpl. split; [lia | eauto].
    + rewrite (buildChannelArgument_other u inv t c Hs), IH; lia.
Qed.

(** Step 3 of the dispatcher fails exactly when the number of streaming
    parameters differs from the number of stream ids. *)
Lemma bindChannelArguments_error u inv params :
  is_Some (bindChannelArguments u inv params).1.1 <->
  streamingParams params <> length (inv_StreamIds inv).
Proof.
  unfold bindChannelArguments.
  destruct (decide (streamingParams params <= length (inv_StreamIds inv))%nat)
    as [Hle|Hgt].
  - destruct (bindChannelArguments_loop_ok u inv params 0 Hle) as (u' & -> & _).
    simpl. destruct (Nat.ltb_spec (streamingParams params) (length (inv_StreamIds inv)));
      simpl; split; try lia; eauto.
    intros [e He]. discriminate.
  - pose proof (bindChannelArguments_loop_error u inv params 0 ltac:(lia)) as Herr.
    destruct (bindChannelArguments_loop u inv params 0) as [[[e|] c] u'];
      simpl in *.
    + split; [lia | eauto].
    + destruct (proj2 Herr ltac:(lia)) as [e He]. discriminate.
Qed.
End StreamClientFacts.

(** ** The stream client *)

Section StreamItems.
Context `{Platform}.
Import StreamClient.

Lemma narrowed_type t f :
  basic_numeric t = true -> TypeOf (narrowed t f) = Some t.
Proof. by destruct t. Qed.

Lemma convert_basic_numeric t f :
  basic_numeric t = true ->
  convertNumberToChannelType (zero_value t) f = (narrowed t f, true).
Proof. by destruct t. Qed.

Lemma assignable_refl t : assignable t t = true.
Proof. unfold assignable. by rewrite bool_decide_eq_true_2. Qed.

Lemma chan_Send_open ch v t :
  TypeOf v = Some t -> assignable t (chan_elem ch) = true ->
  chan_closed ch = false ->
  chan_Send ch v = Ret {| chan_elem := chan_elem ch;
                          chan_sent := chan_sent ch ++ [v];
                          chan_closed := false |}.
Proof. unfold chan_Send. by intros -> -> ->. Qed.

(** Truncation discards the fraction: the result is the integer of the
    same sign nearest to zero from the float [m * 2^e]. *)
Lemma float_trunc_towards_zero s m e z :
  float_trunc (S754_finite s m e) = Some z -> e < 0 ->
  let a := if s then - z else z in
  a * 2 ^ (- e) <= Z.pos m < (a + 1) * 2 ^ (- e).
Proof.
  unfold float_trunc. intros Hz He.
  destruct (Z.leb_spec 0 e); [lia|].
  assert (0 < 2 ^ (- e)) by (apply Z.pow_pos_nonneg; lia).
  pose proof (Z.div_mod (Z.pos m) (2 ^ (- e)) ltac:(lia)) as Hdm.
  pose proof (Z.mod_pos_bound (Z.pos m) (2 ^ (- e)) ltac:(lia)) as Hb.
  injection Hz as <-.
  assert ((if s then - (if s then - (Z.pos m / 2 ^ (- e)) else Z.pos m / 2 ^ (- e))
           else (if s then - (Z.pos m / 2 ^ (- e)) else Z.pos m / 2 ^ (- e)))
          = Z.pos m / 2 ^ (- e)) as -> by (destruct s; lia).
  nia.
Qed.

Lemma float64_to_int_in_range k f z :
  float_trunc f = Some z -> min_int k <= z <= max_int k ->
  float64_to_int k f = z.
Proof.
  unfold float64_to_int. intros -> [Hlo Hhi].
  apply Z.leb_le in Hlo, Hhi. by rewrite Hlo, Hhi.
Qed.

(** The integer part computed by [float_trunc] is the truncation. *)
Lemma truncation_float_trunc s m e z :
  truncation s m e z -> float_trunc (S754_finite s m e) = Some z.
Proof.
  unfold truncation, float_trunc. intros (Hsign & Hpos & Hneg). f_equal.
  destruct (Z.leb_spec 0 e) as [He|He].
  - specialize (Hpos He). destruct s; lia.
  - specialize (Hneg He).
    assert (0 < 2 ^ (- e)) by (apply Z.pow_pos_nonneg; lia).
    assert (Z.pos m / 2 ^ (- e) = Z.abs z) as ->.
    { symmetry. apply (Z.div_unique _ _ _ (Z.pos m - 2 ^ (- e) * Z.abs z)); lia. }
    destruct s; lia.
Qed.
End StreamItems.

Section StreamClientClaims.
Context `{Platform}.
Import StreamClient Dispatch.

(** C7: a stream item whose invocation id has no registered upstream
    channel is a no-op: [receiveStreamItem] returns a nil error and the
    client (the registry and every channel) is unchanged. *)
Theorem receiveStreamItem_unknown_id (u : streamClient) (streamItem : streamItemMessage) :
  upstreamChannels u !! si_InvocationID streamItem = None ->
  receiveStreamItem u streamItem = Ret (None, u).
Proof. unfold receiveStreamItem. by intros ->. Qed.

(** C5, amended: a number arriving for a registered, open channel whose
    element type is an integer type ([int] ... [uint64]) or a
    floating-point type is narrowed to that type and sent on the channel,
    and no error is returned.  Afterwards the channel holds one more value
    [v], every other channel and the registry are as before; [v] is the
    number itself on a [chan float64], the number rounded to binary32 on a
    [chan float32], and on a channel of an integer type the number with
    its fraction discarded, whenever that fits the type. *)
Theorem receiveStreamItem_number (u : streamClient) (id : string) (a : nat)
    (ch : channel) (ty : Z) (f : float64) :
  upstreamChannels u !! id = Some a ->
  chans u !! a = Some ch ->
  basic_numeric (chan_elem ch) = true ->
  chan_closed ch = false ->
  exists (u' : streamClient) (v : any),
    receiveStreamItem u {| si_Type := ty; si_InvocationID := id; si_Item := VFloat64 f |}
      = Ret (None, u')
    /\ chans u' !! a = Some {| chan_elem := chan_elem ch;
                               chan_sent := chan_sent ch ++ [v];
                               chan_closed := false |}
    /\ (forall b, b <> a -> chans u' !! b = chans u !! b)
    /\ upstreamChannels u' = upstreamChannels u
    /\ next_chan u' = next_chan u
    /\ TypeOf v = Some (chan_elem ch)
    /\ (chan_elem ch = TFloat64 -> v = VFloat64 f)
    /\ (chan_elem ch = TFloat32 ->
          v = VFloat32 match f with
                       | S754_finite s m e => binary_round 24 128 s m e
                       | _ => f
                       end)
    /\ (forall k s m e z, chan_elem ch = TInt k -> f = S754_finite s m e ->
          truncation s m e z -> min_int k <= z <= max_int k -> v = VInt k z)
    /\ (forall k s, chan_elem ch = TInt k -> f = S754_zero s ->
          min_int k <= 0 <= max_int k -> v = VInt k 0).
Proof.
  intros Hid Ha Hnum Hopen.
  exists (set_chan u a {| chan_elem := chan_elem ch;
                          chan_sent := chan_sent ch ++ [narrowed (chan_elem ch) f];
                          chan_closed := false |}), (narrowed (chan_elem ch) f).
  split; [|split; [|split; [|split; [|split; [|split; [|split; [|split; [|split]]]]]]]].
  - unfold receiveStreamItem. simpl. rewrite Hid, Ha.
    rewrite (convert_basic_numeric _ f Hnum).
    by rewrite (chan_Send_open ch _ (chan_elem ch)
                  (narrowed_type _ f Hnum) (assignable_refl _) Hopen).
  - simpl. by rewrite lookup_insert_eq.
  - intros b Hb. simpl. by rewrite lookup_insert_ne.
  - reflexivity.
  - reflexivity.
  - by apply narrowed_type.
  - by intros ->.
  - by intros ->.
  - intros k s m e z -> -> Htr Hr. unfold narrowed. simpl.
    by rewrite (float64_to_int_in_range k _ z (truncation_float_trunc _ _ _ _ Htr) Hr).
  - intros k s -> -> Hr. unfold narrowed. simpl.
    by rewrite (float64_to_int_in_range k (S754_zero s) 0 eq_refl Hr).
Qed.

(** C4: an invocation that declares more stream ids than the target
    method has streaming parameters is an error for the dispatcher.  Every
    streaming parameter has been given its channel, and then the call is
    aborted: instead of invoking the method, the dispatcher answers with
    a completion that carries the invocation id, no result and an error
    text. *)
Theorem dispatch_surplus_stream_ids (u : streamClient)
    (invocation : invocationMessage) (params : list gotype) :
  (streamingParams params < length (inv_StreamIds invocation))%nat ->
  exists (completion : completionMessage) (u' : streamClient),
    dispatch u invocation params = (Aborted completion, u')
    /\ cpl_Type completion = 3
    /\ cpl_InvocationID completion = inv_InvocationID invocation
    /\ cpl_Result completion = Nil
    /\ cpl_Error completion <> ""%string
    /\ next_chan u' = (next_chan u + streamingParams params)%nat.
Proof.
  intros Hlt. unfold dispatch, bindChannelArguments.
  destruct (bindChannelArguments_loop_ok u invocation params 0 ltac:(simpl; lia))
    as (u' & -> & Hnext).
  simpl. apply Nat.ltb_lt in Hlt. rewrite Hlt.
  eexists. exists u'. repeat split; [|exact Hnext]. simpl. discriminate.
Qed.

(** The registry invariant holds initially and is kept by every operation
    of the stream client. *)
Lemma newStreamClient_ok : registry_ok newStreamClient.
Proof.
  split.
  - intros id a Hid. cbn in Hid. by rewrite lookup_empty in Hid.
  - intros a [ch Ha]. cbn in Ha. by rewrite lookup_empty in Ha.
Qed.

Lemma buildChannelArgument_ok u invocation argType chanCount :
  registry_ok u ->
  registry_ok (buildChannelArgument u invocation argType chanCount).2.
Proof.
  intros [Hreg Hnext]. unfold buildChannelArgument.
  destruct (_ || _); [done|].
  destruct (_ <? _)%nat; [|done]. simpl. split; simpl.
  - intros id a. rewrite lookup_insert. case_decide.
    + intros [= <-]. rewrite lookup_insert_eq. eauto.
    + intros Hid. destruct (Hreg id a Hid) as [ch Hch].
      exists ch. rewrite lookup_insert_ne; [done|].
      specialize (Hnext a ltac:(eauto)). lia.
  - intros a. rewrite lookup_insert. case_decide; [lia|].
    intros Ha. specialize (Hnext a Ha). lia.
Qed.

Lemma set_chan_ok u a ch :
  registry_ok u -> is_Some (chans u !! a) -> registry_ok (set_chan u a ch).
Proof.
  intros [Hreg Hnext] Ha. split; simpl.
  - intros id b Hid. rewrite lookup_insert. case_decide; [eauto|]. by eapply Hreg.
  - intros b. rewrite lookup_insert. case_decide; [subst; auto|]. apply Hnext.
Qed.

Lemma receiveStreamItem_ok u streamItem err u' :
  registry_ok u ->
  receiveStreamItem u streamItem = Ret (err, u') ->
  registry_ok u'.
Proof.
  intros Hok. unfold receiveStreamItem.
  destruct (upstreamChannels u !! _) as [a|]; [|by intros [= _ <-]].
  destruct (chans u !! a) as [upChan|] eqn:Ha; [|done].
  destruct (si_Item streamItem); cbv beta iota;
    repeat match goal with
    | |- context [match ?x with _ => _ end] => destruct x eqn:?
    end;
    intros Heq; try discriminate; injection Heq as _ <-;
    try done; apply set_chan_ok; eauto.
Qed.

(** The other half of C6 holds: a sequence-typed item for a channel whose
    element type is not a sequence type is answered with an error. *)
Lemma receiveStreamItem_sequence_mismatch (u : streamClient)
    (streamItem : streamItemMessage) (a : nat) (ch : channel) (t tc : gotype) :
  upstreamChannels u !! si_InvocationID streamItem = Some a ->
  chans u !! a = Some ch ->
  TypeOf (si_Item streamItem) = Some t ->
  is_sequence (kind_of t) = true ->
  TypeOf (zero_value (chan_elem ch)) = Some tc ->
  is_sequence (kind_of tc) = false ->
  exists e, receiveStreamItem u streamItem = Ret (Some e, u).
Proof.
  intros Hid Ha Ht Hseq Htc Hch. unfold receiveStreamItem. rewrite Hid, Ha.
  destruct (si_Item streamItem); cbv beta iota;
    try (rewrite Ht, Hseq, Htc, Hch; eauto).
  injection Ht as <-. discriminate Hseq.
Qed.
End StreamClientClaims.

Lemma receiveStreamItem_unknown_id_witness :
  @StreamClient.receiveStreamItem example_platform example_client
    {| si_Type := 2; si_InvocationID := "s9"; si_Item := VString "late" |}
  = Ret (None, example_client).
Proof. apply (@receiveStreamItem_unknown_id example_platform). reflexivity. Defined.

Lemma receiveStreamItem_number_witness :
  exists (u' : streamClient),
    @StreamClient.receiveStreamItem example_platform example_client
      {| si_Type := 2; si_InvocationID := "s1"; si_Item := VFloat64 float_3_75 |}
    = Ret (None, u')
    /\ chans u' !! 0%nat
       = Some {| chan_elem := TInt Int; chan_sent := [VInt Int 3]; chan_closed := false |}.
Proof.
  destruct (@receiveStreamItem_number example_platform example_client "s1" 0%nat
              {| chan_elem := TInt Int; chan_sent := []; chan_closed := false |} 2
              float_3_75 eq_refl eq_refl eq_refl eq_refl)
    as (u' & v & Hret & Hch & _ & _ & _ & _ & _ & _ & Htrunc & _).
  exists u'. split; [exact Hret|].
  rewrite Hch.
  rewrite (Htrunc Int false 8444249301319680%positive (-51) 3 eq_refl eq_refl).
  - reflexivity.
  - unfold truncation. split; [lia|]. split; [lia|]. intros _.
    vm_compute. split; [discriminate | reflexivity].
  - vm_compute. split; discriminate.
Defined.

(** C5, as stated, fails: [uintptr] and the complex types are basic
    numeric types of Go, yet a number that arrives for a registered, open
    [chan uintptr] is not sent: the channel has still received nothing. *)
Lemma number_for_uintptr_channel_is_dropped :
  ~ (forall (P : Platform) (u : streamClient) (id : string) (a : nat) (ch : channel)
            (ty : Z) (f : float64),
        upstreamChannels u !! id = Some a ->
        chans u !! a = Some ch ->
        numeric (chan_elem ch) = true ->
        chan_closed ch = false ->
        exists (u' : streamClient) (v : any),
          StreamClient.receiveStreamItem u
            {| si_Type := ty; si_InvocationID := id; si_Item := VFloat64 f |}
          = Ret (None, u')
          /\ chans u' !! a = Some {| chan_elem := chan_elem ch;
                                     chan_sent := chan_sent ch ++ [v];
                                     chan_closed := false |}).
Proof.
  intros Hclaim.
  destruct (Hclaim example_platform example_client3 "s1"%string 0%nat
              {| chan_elem := TUintptr; chan_sent := []; chan_closed := false |}
              2 float_3_75 eq_refl eq_refl eq_refl eq_refl)
    as (u' & v & Hret & Hch).
  vm_compute in Hret. injection Hret as <-.
  vm_compute in Hch. discriminate Hch.
Qed.

Lemma dispatch_surplus_stream_ids_witness :
  exists (completion : completionMessage) (u' : streamClient),
    Dispatch.dispatch newStreamClient example_invocation [TChan RecvDir (TInt Int)]
    = (Dispatch.Aborted completion, u')
    /\ cpl_Type completion = 3
    /\ cpl_InvocationID completion = inv_InvocationID example_invocation
    /\ cpl_Result completion = Nil
    /\ cpl_Error completion <> ""%string
    /\ next_chan u' = 1%nat.
Proof.
  apply (dispatch_surplus_stream_ids newStreamClient example_invocation
           [TChan RecvDir (TInt Int)]).
  vm_compute. lia.
Defined.

(** A sequence-typed item for a registered channel of a sequence type is
    dropped: nothing is sent, no error is returned, the client is
    unchanged. *)
Lemma receiveStreamItem_sequence_dropped `{Platform} (u : streamClient)
    (streamItem : streamItemMessage) (a : nat) (ch : channel) (t : gotype) :
  upstreamChannels u !! si_InvocationID streamItem = Some a ->
  chans u !! a = Some ch ->
  TypeOf (si_Item streamItem) = Some t ->
  StreamClient.is_sequence (kind_of t) = true ->
  StreamClient.is_sequence (kind_of (chan_elem ch)) = true ->
  StreamClient.receiveStreamItem u streamItem = Ret (None, u).
Proof.
  intros Hid Ha Ht Hseq Hch. unfold StreamClient.receiveStreamItem.
  rewrite Hid, Ha.
  assert (TypeOf (zero_value (chan_elem ch)) = Some (chan_elem ch)) as Hz.
  { clear -Hch. induction (chan_elem ch); simpl in *; try done.
    - by rewrite repeat_length.
    - by rewrite IHg. }
  destruct (si_Item streamItem); cbv beta iota;
    try (rewrite Ht, Hseq, Hz, Hch; reflexivity).
  injection Ht as <-. discriminate Hseq.
Qed.

(** C6: a slice arriving for the registered channel of element type
    [[]int] is neither converted nor sent: [receiveStreamItem] returns a
    nil error and the channel has still received nothing. *)
Theorem receiveStreamItem_slice_into_slice_channel :
  @StreamClient.receiveStreamItem example_platform example_client
    {| si_Type := 2; si_InvocationID := "s2";
       si_Item := VSlice TInterface [VFloat64 (Wire.float_of_Z 1);
                                     VFloat64 (Wire.float_of_Z 2)] |}
  = Ret (None, example_client)
  /\ (exists a, upstreamChannels example_client !! "s2" = Some a
        /\ chans example_client !! a
           = Some {| chan_elem := TSlice (TInt Int); chan_sent := [];
                     chan_closed := false |}).
Proof.
  split.
  - by apply (@receiveStreamItem_sequence_dropped example_platform example_client _
                1%nat {| chan_elem := TSlice (TInt Int); chan_sent := [];
                         chan_closed := false |} (TSlice TInterface)).
  - exists 1%nat. split; reflexivity.
Qed.

(** ** The JSON hub protocol: arguments *)

(** C9: [UnmarshalArgument] panics exactly when the dynamic type of its
    first parameter is not [json.RawMessage]; on a [json.RawMessage] it
    returns: nil with the decoded value, or a [jsonError] carrying the raw
    text.  The earlier protocol panics in the same cases. *)
Theorem UnmarshalArgument_needs_RawMessage `{JSON} (argument : any) (value : gotype) :
  (is_RawMessage argument = false <->
     exists reason, JSONHubProtocol.UnmarshalArgument argument value = Panic reason)
  /\ (is_RawMessage argument = false <->
        exists reason, JsonHubProtocol.UnmarshalArgument argument value = Panic reason)
  /\ (forall raw, argument = VRawMessage raw ->
        exists v,
          JSONHubProtocol.UnmarshalArgument argument value = Ret (v, None)
          \/ exists err,
               JSONHubProtocol.UnmarshalArgument argument value
               = Ret (v, Some (jsonError raw err))).
Proof.
  split; [|split].
  - destruct argument; simpl; split; eauto; try discriminate.
    intros [reason Hr]. destruct (Unmarshal_value raw value) as [v [e|]]; discriminate.
  - destruct argument; simpl; split; eauto; try discriminate.
    intros [reason Hr]. discriminate.
  - intros raw ->. simpl.
    destruct (Unmarshal_value raw value) as [v [e|]]; eauto.
Qed.

(** ** The hub connection *)

Section HubConnectionClaims.
Context `{HubProtocol}.
Import HubConnection.

Lemma send_Connected m c : Connected (send m c) = Connected c.
Proof. unfold send. by destruct (WriteMessage m (conn_writer (Conn c))). Qed.

Lemma send_writer m c :
  conn_writer (Conn (send m c)) = (WriteMessage m (conn_writer (Conn c))).1.
Proof. unfold send. by destruct (WriteMessage m (conn_writer (Conn c))). Qed.

(** C10: in any state, [Close] leaves the connection not connected and
    hands the protocol a Close message (type 7, the given error text)
    whose [AllowReconnect] is true. *)
Theorem Close_in_any_state (error : string) (c : defaultHubConnection) :
  IsConnected (Close error c) = false
  /\ Connected (Close error c) = 0
  /\ conn_writer (Conn (Close error c))
     = (WriteMessage
          (MClose {| close_Type := 7; close_Error := error;
                     close_AllowReconnect := true |})
          (conn_writer (Conn c))).1.
Proof.
  unfold Close, IsConnected. rewrite send_Connected, send_writer. simpl.
  split; [|split]; try reflexivity.
Qed.

(** C3, amended: a typed send operation hands its message to the
    protocol and drops the result; the connection state is left as it
    was, whether or not the transport write failed. *)
Theorem send_operations_keep_state (c : defaultHubConnection)
    (target id error : string) (args : list any) (item result : any) :
  let w := conn_writer (Conn c) in
  (IsConnected (SendInvocation target args c) = IsConnected c
   /\ conn_writer (Conn (SendInvocation target args c))
      = (WriteMessage (MSendOnlyInvocation
           {| so_Type := 1; so_Target := target; so_Arguments := args |}) w).1)
  /\ (IsConnected (StreamItem id item c) = IsConnected c
      /\ conn_writer (Conn (StreamItem id item c))
         = (WriteMessage (MStreamItem
              {| si_Type := 2; si_InvocationID := id; si_Item := item |}) w).1)
  /\ (IsConnected (Completion id result error c) = IsConnected c
      /\ conn_writer (Conn (Completion id result error c))
         = (WriteMessage (MCompletion
              {| cpl_Type := 3; cpl_InvocationID := id;
                 cpl_Result := result; cpl_Error := error |}) w).1)
  /\ (IsConnected (Ping c) = IsConnected c
      /\ conn_writer (Conn (Ping c))
         = (WriteMessage (MHub {| hub_Type := 6 |}) w).1).
Proof.
  unfold SendInvocation, StreamItem, Completion, Ping, IsConnected.
  rewrite !send_Connected, !send_writer. simpl. tauto.
Qed.
End HubConnectionClaims.

(** What [Close] puts on the transport with the JSON protocol, for an idle,
    a started and an already closed connection. *)
Lemma Close_writes_close_frame :
  let frame :=
    Wire.json_text "{'type':7,'error':'bye','allowReconnect':true}" ++ [x0a; RS] in
  let idle :=
    HubConnection.newHubConnection
      {| conn_reader := []; conn_writer := {| written := []; broken := false |};
         ConnectionID := "c1" |} in
  let started := example_connection [] false in
  let closed := HubConnection.Close "bye" started in
  written (conn_writer (Conn (HubConnection.Close "bye" idle))) = [frame]
  /\ written (conn_writer (Conn closed)) = [frame]
  /\ written (conn_writer (Conn (HubConnection.Close "bye" closed))) = [frame; frame]
  /\ HubConnection.IsConnected started = true
  /\ HubConnection.IsConnected closed = false.
Proof. vm_compute. repeat split. Qed.

(** C3, as stated, fails: after a send whose transport write failed the
    connection is still connected, and the next send is attempted. *)
Lemma failed_send_leaves_connection_open :
  let c := example_connection [] true in
  let c' := HubConnection.Completion "666" (VInt Int 315) "" c in
  (WriteMessage
     (MCompletion {| cpl_Type := 3; cpl_InvocationID := "666";
                     cpl_Result := VInt Int 315; cpl_Error := "" |})
     (conn_writer (Conn c))).2 = Some (TransportError "write failed")
  /\ HubConnection.IsConnected c' = true
  /\ length (written (conn_writer (Conn (HubConnection.Ping c')))) = 2%nat.
Proof. vm_compute. auto. Qed.

(** ** Frames *)

Section Framing.
Implicit Types (b frame rest data p : bytes) (c : byte).

Lemma byte_eqb_refl c : Byte.eqb c c = true.
Proof. by apply Byte.byte_dec_lb. Qed.

Lemma IndexByte_app_None a b c :
  IndexByte (a ++ b) c = None <-> IndexByte a c = None /\ IndexByte b c = None.
Proof.
  induction a as [|x a IH]; simpl; [tauto|].
  destruct (Byte.eqb x c); [split; [discriminate | intros [? _]; discriminate]|].
  destruct (IndexByte (a ++ b) c), (IndexByte a c); try tauto;
    split; try discriminate; try (intros [? _]; discriminate);
    intros; exfalso; destruct IH as [IH1 IH2];
    try (destruct (IH1 eq_refl); discriminate).
  destruct H as [_ Hb]. specialize (IH2 (conj eq_refl Hb)). discriminate.
Qed.

Lemma IndexByte_app_Some a b c i :
  IndexByte a c = Some i -> IndexByte (a ++ b) c = Some i.
Proof.
  revert i. induction a as [|x a IH]; simpl; intros i; [discriminate|].
  destruct (Byte.eqb x c); [done|].
  destruct (IndexByte a c) as [j|]; [|discriminate].
  intros Hi. by rewrite (IH j eq_refl).
Qed.

Lemma IndexByte_Some_lt b c i :
  IndexByte b c = Some i -> (i < length b)%nat.
Proof.
  revert i. induction b as [|x b IH]; simpl; intros i; [discriminate|].
  destruct (Byte.eqb x c); [intros [= <-]; lia|].
  destruct (IndexByte b c) as [j|]; [|discriminate].
  intros [= <-]. specialize (IH j eq_refl). lia.
Qed.

Lemma IndexByte_first frame rest c :
  IndexByte frame c = None ->
  IndexByte (frame ++ c :: rest) c = Some (length frame).
Proof.
  induction frame as [|x frame IH]; simpl.
  - intros _. by rewrite (byte_eqb_refl c).
  - destruct (Byte.eqb x c); [discriminate|].
    destruct (IndexByte frame c); [discriminate|].
    intros _. by rewrite IH.
Qed.

Lemma IndexByte_skipn p c n :
  IndexByte p c = None -> IndexByte (skipn n p) c = None.
Proof.
  intros Hp. rewrite <- (firstn_skipn n p) in Hp.
  by apply IndexByte_app_None in Hp as [_ ?].
Qed.

(** A chunk without the separator is a prefix of the pending frame. *)
Lemma split_before_separator x y frame rest c :
  x ++ y = frame ++ c :: rest ->
  IndexByte x c = None -> IndexByte frame c = None ->
  exists frame', frame = x ++ frame' /\ y = frame' ++ c :: rest.
Proof.
  revert frame. induction x as [|a x IH]; intros frame Heq Hx Hf.
  - exists frame. by simpl in *.
  - simpl in Hx. destruct (Byte.eqb a c) eqn:Hac; [discriminate|].
    destruct (IndexByte x c) eqn:Hxc; [discriminate|].
    destruct frame as [|f frame]; simpl in Heq.
    + injection Heq as -> _. by rewrite (byte_eqb_refl c) in Hac.
    + injection Heq as -> Heq. simpl in Hf. rewrite Hac in Hf.
      destruct (IndexByte frame c) eqn:Hfc; [discriminate|].
      destruct (IH frame Heq eq_refl Hfc) as (frame' & -> & ->).
      by exists frame'.
Qed.

Lemma Read_concat (chunk : bytes) (r : Reader) p :
  let '(n, err, p', r') := Read (chunk :: r) p in
  n = Nat.min (length chunk) (length p) /\ err = None
  /\ p' = firstn n chunk ++ skipn n p
  /\ concat r' = skipn n chunk ++ concat r
  /\ ((0 < length p)%nat -> (reader_size r' < reader_size (chunk :: r))%nat).
Proof.
  simpl. repeat split.
  - destruct (Nat.leb_spec (length chunk) (length p)).
    + rewrite Nat.min_l by lia. by rewrite skipn_all.
    + done.
  - intros Hp. destruct (Nat.leb_spec (length chunk) (length p)); simpl.
    + lia.
    + rewrite length_skipn. lia.
Qed.

(** [parseTextMessageFormat] on a stream that starts with a frame: the
    frame is returned whatever the chunks are. *)
Lemma parseTextMessageFormat_loop_frame fuel (r : Reader) data p frame rest :
  IndexByte frame RS = None ->
  concat r = frame ++ RS :: rest ->
  IndexByte p RS = None ->
  (0 < length p)%nat ->
  (reader_size r < fuel)%nat ->
  exists r', Stream.parseTextMessageFormat_loop fuel r data p
             = Some (Some (data ++ frame), None, r').
Proof.
  revert r data p frame.
  induction fuel as [|fuel IH]; intros r data p frame Hf Hr Hp Hlen Hfuel; [lia|].
  destruct r as [|chunk r]; [by destruct frame|].
  pose proof (Read_concat chunk r p) as HR.
  cbn [Stream.parseTextMessageFormat_loop].
  destruct (Read (chunk :: r) p) as [[[n err] p'] r'].
  destruct HR as (Hn & -> & Hp' & Hr' & Hsize).
  assert (length (firstn n chunk) = n) as Hxl by (rewrite length_firstn; lia).
  assert (firstn n chunk ++ concat r' = frame ++ RS :: rest) as Hcat.
  { rewrite Hr', app_assoc, firstn_skipn. exact Hr. }
  destruct (IndexByte (firstn n chunk) RS) as [i|] eqn:Hx.
  - rewrite Hp', (IndexByte_app_Some _ (skipn n p) _ _ Hx).
    pose proof (IndexByte_app_Some _ (concat r') _ _ Hx) as Hi.
    rewrite Hcat, (IndexByte_first _ rest _ Hf) in Hi. injection Hi as <-.
    pose proof (IndexByte_Some_lt _ _ _ Hx) as Hlt.
    exists r'. do 3 f_equal.
    rewrite take_app_le by lia.
    rewrite <- (take_app_le _ (concat r')) by lia.
    by rewrite Hcat, take_app_length.
  - assert (IndexByte p' RS = None) as Hp'none.
    { rewrite Hp'. apply IndexByte_app_None. split; [done|].
      by apply IndexByte_skipn. }
    rewrite Hp'none.
    destruct (split_before_separator _ _ _ _ _ Hcat Hx Hf) as (frame' & -> & Hr'').
    apply IndexByte_app_None in Hf as [_ Hf'].
    destruct (IH r' (data ++ firstn n p') p' frame' Hf' Hr'' Hp'none) as [r'' Hloop].
    + rewrite Hp', length_app, Hxl, length_skipn. lia.
    + specialize (Hsize Hlen). simpl in *. lia.
    + exists r''. rewrite Hloop. do 3 f_equal.
      rewrite Hp', take_app_le, take_ge by lia. by rewrite app_assoc.
Qed.

Lemma parseTextMessageFormat_frame (r : Reader) frame rest :
  IndexByte frame RS = None ->
  concat r = frame ++ RS :: rest ->
  exists r', Stream.parseTextMessageFormat r = Some (Some frame, None, r').
Proof.
  intros Hf Hr. unfold Stream.parseTextMessageFormat.
  destruct (parseTextMessageFormat_loop_frame (S (reader_size r)) r [] (zeros 1024)
              frame rest Hf Hr) as [r' Hr']; [done| simpl; lia | lia |].
  by exists r'.
Qed.
(** [parseTextMessageFormat] returns for every reader. *)
Lemma parseTextMessageFormat_loop_returns fuel (r : Reader) data p :
  (0 < length p)%nat -> (reader_size r < fuel)%nat ->
  is_Some (Stream.parseTextMessageFormat_loop fuel r data p).
Proof.
  revert r data p. induction fuel as [|fuel IH]; intros r data p Hp Hfuel; [lia|].
  destruct r as [|chunk r]; [simpl; eauto|].
  pose proof (Read_concat chunk r p) as HR.
  cbn [Stream.parseTextMessageFormat_loop].
  destruct (Read (chunk :: r) p) as [[[n err] p'] r'].
  destruct HR as (Hn & -> & -> & _ & Hsize).
  destruct (IndexByte _ RS); [eauto|].
  apply IH.
  - rewrite length_app, length_take, length_drop. lia.
  - specialize (Hsize Hp). lia.
Qed.

Lemma parseTextMessageFormat_returns (r : Reader) :
  is_Some (Stream.parseTextMessageFormat r).
Proof.
  apply parseTextMessageFormat_loop_returns; [|lia].
  unfold zeros. rewrite repeat_length. lia.
Qed.
End Framing.

(** ** The JSON hub protocol: messages *)

Section Codec.
Context `{JSON}.
Import JSONHubProtocol.

Lemma raw_arguments_map args raws :
  raw_arguments args = Some raws -> map VRawMessage raws = args.
Proof.
  revert raws. induction args as [|a args IH]; intros raws; simpl.
  - by intros [= <-].
  - destruct a; try discriminate.
    destruct (raw_arguments args) as [raws'|]; [|discriminate].
    intros [= <-]. simpl. by rewrite (IH raws' eq_refl).
Qed.

Lemma parseFrame_envelope data t :
  Unmarshal_hubMessage data = ({| hub_Type := t |}, None) ->
  ~ dispatched t ->
  parseFrame data = (Some (MHub {| hub_Type := t |}), None).
Proof.
  unfold parseFrame, dispatched. intros -> Ht. simpl.
  repeat case_decide; try reflexivity; exfalso; lia.
Qed.

Lemma parseFrame_decodes data m :
  decodes_to data m -> parseFrame data = (Some m, None).
Proof.
  destruct m as [h|i|s|s|c|c|c]; simpl.
  - destruct h as [t]. intros [Hh Ht]. by apply parseFrame_envelope.
  - intros (Hh & Ht & Hi).
    destruct (raw_arguments (inv_Arguments i)) as [raws|] eqn:Hraws; [|done].
    unfold parseFrame. rewrite Hh. simpl.
    rewrite decide_True by lia. rewrite Hi. simpl.
    rewrite (raw_arguments_map _ _ Hraws). by destruct i.
  - done.
  - intros (Hh & Ht & Hs). unfold parseFrame. rewrite Hh. simpl.
    rewrite decide_False by lia. rewrite decide_True by lia. by rewrite Hs.
  - intros (Hh & Ht & Hs). unfold parseFrame. rewrite Hh. simpl.
    do 2 (rewrite decide_False by lia). rewrite decide_True by lia. by rewrite Hs.
  - intros (Hh & Ht & Hs). unfold parseFrame. rewrite Hh. simpl.
    do 3 (rewrite decide_False by lia). rewrite decide_True by lia. by rewrite Hs.
  - intros (Hh & Ht & Hs). unfold parseFrame. rewrite Hh. simpl.
    do 4 (rewrite decide_False by lia). rewrite decide_True by lia. by rewrite Hs.
Qed.

Lemma ParseMessage_frame (r : Reader) (data rest : bytes) :
  IndexByte data RS = None ->
  concat r = data ++ RS :: rest ->
  exists r', ParseMessage r = Some ((parseFrame data).1, (parseFrame data).2, r').
Proof.
  intros Hd Hr. destruct (parseTextMessageFormat_frame r data rest Hd Hr) as [r' Hp].
  exists r'. unfold ParseMessage. rewrite Hp. simpl. by destruct (parseFrame data).
Qed.

(** C8: a frame whose envelope parses and whose type tag has no struct of
    its own decodes, without error, to the envelope carrying that tag,
    however the transport delivers the frame. *)
Theorem ParseMessage_unknown_type (r : Reader) (data rest : bytes) (t : Z) :
  IndexByte data RS = None ->
  concat r = data ++ RS :: rest ->
  Unmarshal_hubMessage data = ({| hub_Type := t |}, None) ->
  ~ dispatched t ->
  exists r', ParseMessage r = Some (Some (MHub {| hub_Type := t |}), None, r').
Proof.
  intros Hd Hr Hh Ht. destruct (ParseMessage_frame r data rest Hd Hr) as [r' Hp].
  exists r'. by rewrite Hp, (parseFrame_envelope data t Hh Ht).
Qed.

(** C2: a message of any kind that the library reads back from its own
    text is returned by [ParseMessage] from what [WriteMessage] wrote,
    whatever chunks the transport cuts the written bytes into. *)
Theorem ParseMessage_WriteMessage (m : message) (b : bytes) (w : Writer) (r : Reader) :
  MarshalEasyJSON m = Some b ->
  IndexByte b RS = None ->
  decodes_to b m ->
  broken w = false ->
  (WriteMessage m w).2 = None
  /\ written (WriteMessage m w).1 = written w ++ [b ++ [RS]]
  /\ (concat r = b ++ [RS] ->
      exists r', ParseMessage r = Some (Some m, None, r')).
Proof.
  intros Hm Hb Hdec Hw. unfold WriteMessage, Write. rewrite Hm, Hw. simpl.
  split; [done|]. split; [done|]. intros Hr.
  destruct (ParseMessage_frame r b [] Hb Hr) as [r' Hp].
  exists r'. by rewrite Hp, (parseFrame_decodes b m Hdec).
Qed.
End Codec.

Lemma ParseMessage_unknown_type_witness :
  exists r',
    JSONHubProtocol.ParseMessage
      [Wire.json_text "{'ty"; Wire.json_text "pe':42}" ++ [RS] ++ Wire.json_text "{'type':6}"]
    = Some (Some (MHub {| hub_Type := 42 |}), None, r').
Proof.
  apply (@ParseMessage_unknown_type Wire.wire_JSON _
           (Wire.json_text "{'type':42}") (Wire.json_text "{'type':6}") 42).
  - reflexivity.
  - reflexivity.
  - vm_compute. reflexivity.
  - unfold dispatched. lia.
Defined.

Lemma ParseMessage_WriteMessage_witness :
  Forall (λ m,
      exists b r',
        MarshalEasyJSON m = Some b
        /\ JSONHubProtocol.ParseMessage [firstn 5 b; skipn 5 b ++ [RS]]
           = Some (Some m, None, r'))
    example_messages.
Proof.
  unfold example_messages.
  repeat match goal with
  | |- Forall _ [] => constructor
  | |- Forall _ (?m :: _) =>
      constructor;
      [ let b := eval vm_compute in (MarshalEasyJSON m) in
        match b with
        | Some ?b =>
            exists b;
            destruct (@ParseMessage_WriteMessage Wire.wire_JSON m b
                        {| written := []; broken := false |}
                        [firstn 5 b; skipn 5 b ++ [RS]])
              as (_ & _ & Hparse);
            [ vm_compute; reflexivity
            | vm_compute; reflexivity
            | vm_compute; unfold dispatched; repeat split; lia
            | reflexivity
            | destruct (Hparse ltac:(vm_compute; reflexivity)) as [r' Hr'];
              exists r'; split; [vm_compute; reflexivity | exact Hr'] ]
        end
      | ]
  end.
Defined.

(** ** Receive *)

Section ReceiveReturns.
Context `{HubProtocol}.
Import HubConnection.

Lemma Read_length (r : Reader) (p : bytes) :
  length (Read r p).1.2 = length p.
Proof.
  destruct r as [|chunk r]; simpl; [done|].
  rewrite length_app, length_take, length_drop. lia.
Qed.

Lemma Receive_loop_returns fuel (conn : Reader) (buf data : bytes) (n : nat) :
  (0 < length data)%nat ->
  (reader_size conn < fuel)%nat ->
  is_Some (Receive_loop fuel conn buf data n).
Proof.
  revert conn buf data n.
  induction fuel as [|fuel IH]; intros conn buf data n Hdata Hfuel; [lia|].
  cbn [Receive_loop].
  destruct (ReadMessage buf) as [[[message complete] err] buf'].
  destruct complete; simpl; [eauto|].
  destruct conn as [|chunk conn]; [simpl; eauto|].
  pose proof (Read_concat chunk conn data) as HR.
  pose proof (Read_length (chunk :: conn) data) as HL.
  destruct (Read (chunk :: conn) data) as [[[n' err'] data'] conn'].
  destruct HR as (_ & -> & _ & _ & Hsize). simpl in HL.
  apply IH; [lia|]. specialize (Hsize Hdata). lia.
Qed.

(** [Receive] returns for every connection: the loop ends at the latest
    when the transport is exhausted. *)
Lemma Receive_returns (c : defaultHubConnection) : is_Some (Receive c).
Proof.
  unfold Receive, Receive_reader.
  destruct (Receive_loop_returns (S (reader_size (conn_reader (Conn c))))
              (conn_reader (Conn c)) [] (zeros 4096) 0%nat) as [[[m e] r] ->].
  - unfold zeros. rewrite repeat_length. lia.
  - lia.
  - eauto.
Qed.
End ReceiveReturns.


(** C1: [Receive] does not reassemble frames independently of the chunks.
    A frame that arrives in one chunk is decoded.  The same bytes in three
    chunks lose the first chunk: the buffer is refilled with the last chunk
    only.  Of two frames in one chunk the second is lost: the buffer is a
    local of the call, so the next [Receive] finds the transport empty.
    [ParseMessage] on the stream drops what follows the separator in the
    chunk it was found in, too. *)
Theorem Receive_depends_on_chunks :
  let P := @JsonHubProtocol_HubProtocol Wire.wire_JSON in
  let ping := Wire.json_text "{'type':6}" in
  let cancel := Wire.json_text "{'type':5,'invocationId':'9'}" in
  let received n chunks :=
    @HubConnection.Receive_repeatedly P n (example_connection chunks false) in
  received 1%nat [ping ++ [RS]] = [(Some (MHub {| hub_Type := 6 |}), None)]
  /\ received 1%nat [firstn 3 ping; firstn 4 (skipn 3 ping); skipn 7 ping ++ [RS]]
     = [(None, Some (decodeError "invalid JSON"))]
  /\ received 1%nat [Wire.json_text "7{'type':6}" ++ [RS]]
     = [(None, Some (decodeError "invalid JSON"))]
  /\ received 1%nat [Wire.text "7"; Wire.json_text "{'type':"; Wire.text "6}" ++ [RS]]
     = [(Some (MHub {| hub_Type := 6 |}), None)]
  /\ received 2%nat [ping ++ [RS]; cancel ++ [RS]]
     = [(Some (MHub {| hub_Type := 6 |}), None);
        (Some (MCancelInvocation {| cancel_Type := 5; cancel_InvocationID := "9" |}),
         None)]
  /\ received 2%nat [ping ++ [RS] ++ cancel ++ [RS]]
     = [(Some (MHub {| hub_Type := 6 |}), None); (None, Some io_EOF)]
  /\ @JSONHubProtocol.ParseMessage Wire.wire_JSON [ping ++ [RS]; cancel ++ [RS]]
     = Some (Some (MHub {| hub_Type := 6 |}), None, [cancel ++ [RS]])
  /\ @JSONHubProtocol.ParseMessage Wire.wire_JSON [ping ++ [RS] ++ cancel ++ [RS]]
     = Some (Some (MHub {| hub_Type := 6 |}), None, []).
Proof. vm_compute. repeat split. Qed.

(** * Further properties *)

(** ** Frames read from a stream *)

Section StreamFrames.

Lemma IndexByte_take (p : bytes) (c : byte) (n : nat) :
  IndexByte p c = None -> IndexByte (take n p) c = None.
Proof.
  intros Hp. rewrite <- (take_drop n p) in Hp.
  by apply IndexByte_app_None in Hp as [? _].
Qed.

Lemma parseTextMessageFormat_loop_rest fuel (r : Reader) (data p frame rest : bytes) :
  IndexByte frame RS = None ->
  concat r = frame ++ RS :: rest ->
  IndexByte p RS = None ->
  (0 < length p)%nat ->
  (reader_size r < fuel)%nat ->
  exists r' dropped,
    Stream.parseTextMessageFormat_loop fuel r data p
    = Some (Some (data ++ frame), None, r')
    /\ rest = dropped ++ concat r'
    /\ (length dropped < length p)%nat.
Proof.
  revert r data p frame.
  induction fuel as [|fuel IH]; intros r data p frame Hf Hr Hp Hlen Hfuel; [lia|].
  destruct r as [|chunk r]; [by destruct frame|].
  pose proof (Read_concat chunk r p) as HR.
  cbn [Stream.parseTextMessageFormat_loop].
  destruct (Read (chunk :: r) p) as [[[n err] p'] r'].
  destruct HR as (Hn & -> & Hp' & Hr' & Hsize).
  assert (length (take n chunk) = n) as Hxl by (rewrite length_take; lia).
  assert (take n chunk ++ concat r' = frame ++ RS :: rest) as Hcat.
  { rewrite Hr', app_assoc, take_drop. exact Hr. }
  destruct (IndexByte (take n chunk) RS) as [i|] eqn:Hx.
  - rewrite Hp', (IndexByte_app_Some _ (drop n p) _ _ Hx).
    pose proof (IndexByte_app_Some _ (concat r') _ _ Hx) as Hi.
    rewrite Hcat, (IndexByte_first _ rest _ Hf) in Hi. injection Hi as <-.
    pose proof (IndexByte_Some_lt _ _ _ Hx) as Hlt.
    exists r', (drop (S (length frame)) (take n chunk)). split; [|split].
    + do 3 f_equal. rewrite take_app_le by lia.
      rewrite <- (take_app_le _ (concat r')) by lia.
      by rewrite Hcat, take_app_length.
    + rewrite <- drop_app_le by lia. rewrite Hcat.
      replace (frame ++ RS :: rest) with ((frame ++ [RS]) ++ rest)
        by (by rewrite <- app_assoc).
      rewrite drop_app_length'; [done|]. rewrite length_app. simpl. lia.
    + rewrite length_drop. lia.
  - assert (IndexByte p' RS = None) as Hp'none.
    { rewrite Hp'. apply IndexByte_app_None. split; [done|].
      by apply IndexByte_skipn. }
    rewrite Hp'none.
    destruct (split_before_separator _ _ _ _ _ Hcat Hx Hf) as (frame' & -> & Hr'').
    apply IndexByte_app_None in Hf as [_ Hf'].
    assert (length p' = length p) as Hlp.
    { rewrite Hp', length_app, Hxl, length_drop. lia. }
    destruct (IH r' (data ++ take n p') p' frame' Hf' Hr'' Hp'none)
      as (r'' & dropped & Hloop & Hrest & Hd).
    + lia.
    + specialize (Hsize Hlen). simpl in *. lia.
    + exists r'', dropped. rewrite Hloop. split; [|split; [done|lia]].
      do 3 f_equal.
      rewrite Hp', take_app_le, take_ge by lia. by rewrite app_assoc.
Qed.

(** X1: [parseTextMessageFormat] returns the first frame of the stream
    whatever the chunks are, and accounts for the bytes behind it: they are
    still in the reader, except for what followed the separator in the
    piece it was read with (fewer than 1024 bytes), which is dropped. *)
Theorem parseTextMessageFormat_rest (r : Reader) (frame rest : bytes) :
  IndexByte frame RS = None ->
  concat r = frame ++ RS :: rest ->
  exists r' dropped,
    Stream.parseTextMessageFormat r = Some (Some frame, None, r')
    /\ rest = dropped ++ concat r'
    /\ (length dropped < 1024)%nat.
Proof.
  intros Hf Hr. unfold Stream.parseTextMessageFormat.
  destruct (parseTextMessageFormat_loop_rest (S (reader_size r)) r [] (zeros 1024)
              frame rest Hf Hr) as (r' & dropped & Hloop & Hrest & Hd);
    [done | simpl; lia | lia |].
  exists r', dropped. unfold zeros in Hd. rewrite repeat_length in Hd. done.
Qed.

Lemma parseTextMessageFormat_loop_EOF fuel (r : Reader) (data p : bytes) :
  IndexByte (concat r) RS = None ->
  IndexByte p RS = None ->
  (0 < length p)%nat ->
  (reader_size r < fuel)%nat ->
  Stream.parseTextMessageFormat_loop fuel r data p = Some (None, Some io_EOF, []).
Proof.
  revert r data p.
  induction fuel as [|fuel IH]; intros r data p Hr Hp Hlen Hfuel; [lia|].
  destruct r as [|chunk r]; [done|].
  pose proof (Read_concat chunk r p) as HR.
  cbn [Stream.parseTextMessageFormat_loop].
  destruct (Read (chunk :: r) p) as [[[n err] p'] r'].
  destruct HR as (Hn & -> & Hp' & Hr' & Hsize).
  simpl in Hr. apply IndexByte_app_None in Hr as [Hchunk Hrest].
  assert (IndexByte p' RS = None) as Hp'none.
  { rewrite Hp'. apply IndexByte_app_None. split.
    - by apply IndexByte_take.
    - by apply IndexByte_skipn. }
  rewrite Hp'none. apply IH.
  - rewrite Hr'. apply IndexByte_app_None. split; [|done]. by apply IndexByte_skipn.
  - done.
  - rewrite Hp', length_app, length_take, length_drop. lia.
  - specialize (Hsize Hlen). simpl in *. lia.
Qed.

(** X2: on a stream that ends without a separator [parseTextMessageFormat]
    returns nil and [io.EOF], and so does [ParseMessage]; the bytes read on
    the way are gone: the reader is exhausted afterwards. *)
Theorem ParseMessage_EOF `{JSON} (r : Reader) :
  IndexByte (concat r) RS = None ->
  Stream.parseTextMessageFormat r = Some (None, Some io_EOF, [])
  /\ JSONHubProtocol.ParseMessage r = Some (None, Some io_EOF, []).
Proof.
  intros Hr.
  assert (Stream.parseTextMessageFormat r = Some (None, Some io_EOF, [])) as Hp.
  { unfold Stream.parseTextMessageFormat.
    apply parseTextMessageFormat_loop_EOF; [done | done | | lia].
    unfold zeros. rewrite repeat_length. lia. }
  split; [done|]. unfold JSONHubProtocol.ParseMessage. by rewrite Hp.
Qed.
End StreamFrames.

Lemma parseTextMessageFormat_rest_witness :
  exists r' dropped,
    Stream.parseTextMessageFormat
      [Wire.json_text "{'ty"; Wire.json_text "pe':6}" ++ [RS] ++ Wire.text "abc";
       Wire.text "def"]
    = Some (Some (Wire.json_text "{'type':6}"), None, r')
    /\ Wire.text "abcdef" = dropped ++ concat r'
    /\ (length dropped < 1024)%nat.
Proof.
  apply (parseTextMessageFormat_rest _ (Wire.json_text "{'type':6}")
           (Wire.text "abcdef")); reflexivity.
Defined.

Lemma ParseMessage_EOF_witness :
  Stream.parseTextMessageFormat [Wire.json_text "{'ty"; Wire.json_text "pe':6}"]
    = Some (None, Some io_EOF, [])
  /\ @JSONHubProtocol.ParseMessage Wire.wire_JSON
       [Wire.json_text "{'ty"; Wire.json_text "pe':6}"]
     = Some (None, Some io_EOF, []).
Proof. apply (@ParseMessage_EOF Wire.wire_JSON). reflexivity. Defined.

(** ** Decoding errors and sequences of messages *)

Section StreamMessages.
Context `{JSON}.
Import JSONHubProtocol.

Lemma parseFrame_error_shape (data : bytes) :
  ((parseFrame data).2 = None
   \/ exists err, (parseFrame data).2 = Some (jsonError data err))
  /\ ((parseFrame data).1 = None <-> is_Some (Unmarshal_hubMessage data).2).
Proof.
  unfold parseFrame.
  destruct (Unmarshal_hubMessage data) as [h [err|]]; simpl.
  - split; [eauto|]. split; eauto.
  - assert (forall (m : option message) (e : option error),
              m <> None ->
              ((m, match e with Some e' => Some (jsonError data e') | None => None end).2
               = None
               \/ exists err, (m, match e with
                                  | Some e' => Some (jsonError data e')
                                  | None => None
                                  end).2 = Some (jsonError data err))
              /\ ((m, match e with
                      | Some e' => Some (jsonError data e')
                      | None => None
                      end).1 = None <-> is_Some (@None error))) as Hshape.
    { intros m [e|] Hm; simpl; (split; [eauto|]); split;
        try done; intros [? ?]; discriminate. }
    repeat case_decide;
      repeat match goal with
      | |- context [let '(_, _) := ?x in _] => destruct x as [? ?]
      end;
      try (apply Hshape; discriminate).
    simpl. split; [eauto|]. split; [discriminate|]. intros [? ?]; discriminate.
Qed.

(** X3: whatever [ParseMessage] reports about a frame is a [jsonError]
    carrying exactly the bytes of that frame, and the message is nil exactly
    when already the envelope (the type tag) could not be read; when only
    the typed parse fails, the struct is returned along with the error. *)
Theorem ParseMessage_error_carries_frame (r : Reader) (data rest : bytes) :
  IndexByte data RS = None ->
  concat r = data ++ RS :: rest ->
  exists m e r',
    ParseMessage r = Some (m, e, r')
    /\ (e = None \/ exists err, e = Some (jsonError data err))
    /\ (m = None <-> is_Some (Unmarshal_hubMessage data).2).
Proof.
  intros Hd Hr. destruct (ParseMessage_frame r data rest Hd Hr) as [r' Hp].
  exists (parseFrame data).1, (parseFrame data).2, r'.
  split; [done|]. apply parseFrame_error_shape.
Qed.

Lemma parseTextMessageFormat_loop_whole_chunk fuel (x : bytes) (r : Reader)
    (data p : bytes) :
  IndexByte x RS = None ->
  IndexByte p RS = None ->
  (0 < length p)%nat ->
  (length x < fuel)%nat ->
  Stream.parseTextMessageFormat_loop fuel ((x ++ [RS]) :: r) data p
  = Some (Some (data ++ x), None, r).
Proof.
  revert x data p.
  induction fuel as [|fuel IH]; intros x data p Hx Hp Hlen Hfuel; [lia|].
  cbn [Stream.parseTextMessageFormat_loop Read].
  rewrite length_app. simpl length.
  destruct (Nat.leb_spec (length x + 1) (length p)) as [Hfit|Hbig].
  - rewrite Nat.min_l by lia.
    rewrite take_ge by (rewrite length_app; simpl; lia).
    rewrite <- app_assoc.
    change ([RS] ++ drop (length x + 1) p) with (RS :: drop (length x + 1) p).
    rewrite (IndexByte_first x _ RS Hx).
    rewrite take_app_length. done.
  - rewrite Nat.min_r by lia.
    rewrite (drop_ge p) by lia. rewrite app_nil_r.
    rewrite take_app_le by lia. rewrite drop_app_le by lia.
    rewrite (IndexByte_take x RS (length p) Hx).
    rewrite (take_ge (take (length p) x)) by (rewrite length_take; lia).
    rewrite IH.
    + rewrite <- app_assoc, take_drop. done.
    + by apply IndexByte_skipn.
    + by apply IndexByte_take.
    + rewrite length_take. lia.
    + rewrite length_drop. lia.
Qed.

Lemma ParseMessage_whole_chunk (b : bytes) (r : Reader) :
  IndexByte b RS = None ->
  ParseMessage ((b ++ [RS]) :: r) = Some ((parseFrame b).1, (parseFrame b).2, r).
Proof.
  intros Hb. unfold ParseMessage, Stream.parseTextMessageFormat.
  rewrite (parseTextMessageFormat_loop_whole_chunk _ b r [] (zeros 1024) Hb).
  - simpl. by destruct (parseFrame b).
  - done.
  - unfold zeros. rewrite repeat_length. lia.
  - simpl. rewrite length_app. simpl. lia.
Qed.

(** X4: messages written one after the other are read back one after the
    other: when every [Write] arrives as a chunk of its own, successive
    calls of [ParseMessage] return the written messages in order (for
    messages the library reads back from its own text). *)
Theorem ParseMessage_repeatedly_WriteMessages (ms : list message) (w : Writer) :
  written w = [] ->
  broken w = false ->
  Forall (λ m, match MarshalEasyJSON m with
               | Some b => IndexByte b RS = None /\ decodes_to b m
               | None => False
               end) ms ->
  ParseMessage_repeatedly (length ms) (written (WriteMessages ms w))
  = map (λ m, (Some m, None)) ms.
Proof.
  intros Hw _ Hms.
  assert (forall pre w0, written w0 = pre ->
            written (WriteMessages ms w0)
            = pre ++ map (λ m, default [] (MarshalEasyJSON m) ++ [RS]) ms) as Hwritten.
  { clear Hw. induction Hms as [|m ms Hm Hms IH]; intros pre w0 Hpre; simpl.
    - by rewrite app_nil_r.
    - unfold WriteMessage at 1. destruct (MarshalEasyJSON m) as [b|]; [|done].
      simpl. rewrite (IH (pre ++ [b ++ [RS]])).
      + by rewrite <- app_assoc.
      + simpl. by rewrite Hpre. }
  rewrite (Hwritten [] w Hw). simpl. clear Hwritten Hw.
  induction Hms as [|m ms Hm Hms IH]; [done|].
  simpl. destruct (MarshalEasyJSON m) as [b|]; [|done]. destruct Hm as [Hb Hdec].
  simpl. rewrite (ParseMessage_whole_chunk b _ Hb), (parseFrame_decodes b m Hdec).
  simpl. by rewrite IH.
Qed.
End StreamMessages.

Lemma ParseMessage_error_carries_frame_witness :
  let frame :=
    Wire.json_text
      "{'type':1,'invocationId': '123','target':'simpleint', arguments[CanNotParse]}" in
  exists m e r',
    @JSONHubProtocol.ParseMessage Wire.wire_JSON [frame ++ [RS]] = Some (m, e, r')
    /\ (e = None \/ exists err, e = Some (jsonError frame err))
    /\ (m = None <-> is_Some (Unmarshal_hubMessage frame).2).
Proof.
  intros frame.
  apply (@ParseMessage_error_carries_frame Wire.wire_JSON [frame ++ [RS]] frame []);
    reflexivity.
Defined.

Lemma ParseMessage_repeatedly_WriteMessages_witness :
  @ParseMessage_repeatedly Wire.wire_JSON (length example_messages)
    (written (@WriteMessages Wire.wire_JSON example_messages
                {| written := []; broken := false |}))
  = map (λ m, (Some m, None)) example_messages.
Proof.
  apply (@ParseMessage_repeatedly_WriteMessages Wire.wire_JSON);
    [reflexivity | reflexivity |].
  unfold example_messages.
  repeat (constructor; [vm_compute; repeat split; first [reflexivity | lia]|]).
  constructor.
Defined.

(** ** The earlier protocol: frames read from a buffer *)

Section BufferFrames.
Context `{JSON}.
Import JsonHubProtocol.

Lemma Buffered_parse_frame (frame rest : bytes) :
  IndexByte frame RS = None ->
  Buffered.parseTextMessageFormat (frame ++ RS :: rest) = (frame, None, rest).
Proof.
  intros Hf. unfold Buffered.parseTextMessageFormat, Buffered.ReadBytes.
  rewrite (IndexByte_first frame rest RS Hf).
  replace (frame ++ RS :: rest) with ((frame ++ [RS]) ++ rest)
    by (by rewrite <- app_assoc).
  rewrite take_app_length', drop_app_length' by (rewrite length_app; simpl; lia).
  rewrite length_app. simpl length.
  replace (length frame + 1 - 1)%nat with (length frame) by lia.
  by rewrite take_app_length.
Qed.

Lemma Buffered_parse_incomplete (buf : bytes) :
  IndexByte buf RS = None ->
  Buffered.parseTextMessageFormat buf = (buf, Some io_EOF, []).
Proof.
  intros Hb. unfold Buffered.parseTextMessageFormat, Buffered.ReadBytes.
  by rewrite Hb.
Qed.

Lemma ReadMessage_frame_step (frame rest : bytes) :
  IndexByte frame RS = None ->
  ReadMessage (frame ++ RS :: rest)
  = ((decodeFrame frame).1, true, (decodeFrame frame).2, rest).
Proof.
  intros Hf. unfold ReadMessage. rewrite (Buffered_parse_frame frame rest Hf).
  by destruct (decodeFrame frame).
Qed.

(** X5: on a buffer that holds a whole frame, [parseTextMessageFormat]
    returns the frame without its separator, and [ReadMessage] decodes it
    and reports it complete; both leave exactly the bytes after the
    separator in the buffer. *)
Theorem ReadMessage_frame (frame rest : bytes) :
  IndexByte frame RS = None ->
  Buffered.parseTextMessageFormat (frame ++ RS :: rest) = (frame, None, rest)
  /\ ReadMessage (frame ++ RS :: rest)
     = ((decodeFrame frame).1, true, (decodeFrame frame).2, rest).
Proof.
  intros Hf. split.
  - by apply Buffered_parse_frame.
  - by apply ReadMessage_frame_step.
Qed.

Lemma ReadMessage_incomplete_step (buf : bytes) :
  IndexByte buf RS = None ->
  ReadMessage buf = (None, false, Some io_EOF, []).
Proof.
  intros Hb. unfold ReadMessage. by rewrite (Buffered_parse_incomplete buf Hb).
Qed.

(** X6: on a buffer without a separator [parseTextMessageFormat] returns
    everything that is buffered together with [io.EOF], and [ReadMessage]
    reports an incomplete message with a nil message and [io.EOF]; both
    empty the buffer: the partial frame is taken out of it. *)
Theorem ReadMessage_incomplete (buf : bytes) :
  IndexByte buf RS = None ->
  Buffered.parseTextMessageFormat buf = (buf, Some io_EOF, [])
  /\ ReadMessage buf = (None, false, Some io_EOF, []).
Proof.
  intros Hb. split.
  - by apply Buffered_parse_incomplete.
  - by apply ReadMessage_incomplete_step.
Qed.

(** X7: a buffer that holds several frames and an unfinished tail gives
    them up one call at a time, in order and complete; the call after the
    last frame reports the tail as incomplete. *)
Theorem ReadMessage_repeatedly_frames (frames : list bytes) (tail : bytes) :
  Forall (λ f, IndexByte f RS = None) frames ->
  IndexByte tail RS = None ->
  ReadMessage_repeatedly (S (length frames))
    (concat (map (λ f, f ++ [RS]) frames) ++ tail)
  = map (λ f, ((decodeFrame f).1, true, (decodeFrame f).2)) frames
    ++ [(None, false, Some io_EOF)].
Proof.
  intros Hfs Ht. induction Hfs as [|f frames Hf Hfs IH].
  - simpl. by rewrite (ReadMessage_incomplete_step tail Ht).
  - cbn [length map concat ReadMessage_repeatedly].
    rewrite <- !app_assoc.
    change ([RS] ++ ?l) with (RS :: l).
    rewrite (ReadMessage_frame_step f _ Hf).
    cbn [app]. f_equal. exact IH.
Qed.

(** X8: the earlier [ReadMessage] has a struct for the type tags 1 to 5
    only: every other tag, also 6 (ping) and 7 (close), is returned as the
    bare envelope, complete and without error. *)
Theorem ReadMessage_envelope (data rest : bytes) (t : Z) :
  IndexByte data RS = None ->
  Unmarshal_hubMessage data = ({| hub_Type := t |}, None) ->
  ~ (1 <= t <= 5) ->
  ReadMessage (data ++ RS :: rest) = (Some (MHub {| hub_Type := t |}), true, None, rest).
Proof.
  intros Hd Hh Ht. rewrite (ReadMessage_frame_step data rest Hd).
  unfold decodeFrame. rewrite Hh. simpl.
  repeat case_decide; try reflexivity; exfalso; lia.
Qed.

Lemma decodeFrame_decodes (data : bytes) (m : message) :
  decodes_to data m ->
  decodeFrame data
  = (Some match m with
          | MClose c => MHub {| hub_Type := close_Type c |}
          | _ => m
          end, None).
Proof.
  destruct m as [h|i|s|s|c|c|c]; simpl.
  - destruct h as [t]. unfold dispatched. intros [Hh Ht]. simpl in Ht.
    unfold decodeFrame. rewrite Hh. simpl.
    repeat case_decide; try reflexivity; exfalso; lia.
  - intros (Hh & Ht & Hi).
    destruct (raw_arguments (inv_Arguments i)) as [raws|] eqn:Hraws; [|done].
    unfold decodeFrame. rewrite Hh. simpl.
    rewrite decide_True by lia. rewrite Hi. simpl.
    rewrite (raw_arguments_map _ _ Hraws). by destruct i.
  - done.
  - intros (Hh & Ht & Hs). unfold decodeFrame. rewrite Hh. simpl.
    rewrite decide_False by lia. rewrite decide_True by lia. by rewrite Hs.
  - intros (Hh & Ht & Hs). unfold decodeFrame. rewrite Hh. simpl.
    do 2 (rewrite decide_False by lia). rewrite decide_True by lia. by rewrite Hs.
  - intros (Hh & Ht & Hs). unfold decodeFrame. rewrite Hh. simpl.
    do 3 (rewrite decide_False by lia). rewrite decide_True by lia. by rewrite Hs.
  - intros (Hh & Ht & Hs). unfold decodeFrame. rewrite Hh. simpl.
    by do 4 (rewrite decide_False by lia).
Qed.

(** X9: round trip through the earlier protocol: [WriteMessage] writes the
    encoded text and the separator in one [Write], and [ReadMessage] reads
    the message back from it, with one exception: a Close message comes
    back as the bare envelope of type 7, without its error text and its
    reconnect flag. *)
Theorem ReadMessage_WriteMessage (m : message) (text rest : bytes) (w : Writer) :
  Encode m = inl text ->
  IndexByte text RS = None ->
  decodes_to text m ->
  broken w = false ->
  WriteMessage m w
    = ({| written := written w ++ [text ++ [RS]]; broken := false |}, None)
  /\ ReadMessage (text ++ RS :: rest)
     = (Some match m with
             | MClose c => MHub {| hub_Type := close_Type c |}
             | _ => m
             end, true, None, rest).
Proof.
  intros Hm Ht Hdec Hw. split.
  - unfold WriteMessage, Write. by rewrite Hm, Hw.
  - by rewrite (ReadMessage_frame_step text rest Ht), (decodeFrame_decodes text m Hdec).
Qed.

End BufferFrames.

Lemma ReadMessage_frame_witness :
  Buffered.parseTextMessageFormat (ping_frame ++ RS :: cancel_frame ++ [RS])
    = (ping_frame, None, cancel_frame ++ [RS])
  /\ @JsonHubProtocol.ReadMessage Wire.wire_JSON
       (ping_frame ++ RS :: cancel_frame ++ [RS])
     = (Some (MHub {| hub_Type := 6 |}), true, None, cancel_frame ++ [RS]).
Proof.
  apply (@ReadMessage_frame Wire.wire_JSON ping_frame (cancel_frame ++ [RS])).
  reflexivity.
Defined.

Lemma ReadMessage_incomplete_witness :
  Buffered.parseTextMessageFormat (Wire.json_text "{'type':")
    = (Wire.json_text "{'type':", Some io_EOF, [])
  /\ @JsonHubProtocol.ReadMessage Wire.wire_JSON (Wire.json_text "{'type':")
     = (None, false, Some io_EOF, []).
Proof. apply (@ReadMessage_incomplete Wire.wire_JSON). reflexivity. Defined.

Lemma ReadMessage_repeatedly_frames_witness :
  @ReadMessage_repeatedly Wire.wire_JSON 3
    (ping_frame ++ [RS] ++ cancel_frame ++ [RS] ++ Wire.json_text "{'type':")
  = [(Some (MHub {| hub_Type := 6 |}), true, None);
     (Some (MCancelInvocation {| cancel_Type := 5; cancel_InvocationID := "9" |}),
      true, None);
     (None, false, Some io_EOF)].
Proof.
  apply (@ReadMessage_repeatedly_frames Wire.wire_JSON [ping_frame; cancel_frame]
           (Wire.json_text "{'type':")).
  - repeat constructor.
  - reflexivity.
Defined.

Lemma ReadMessage_envelope_witness :
  @JsonHubProtocol.ReadMessage Wire.wire_JSON
    (Wire.json_text "{'type':7,'error':'bye','allowReconnect':true}" ++ [RS])
  = (Some (MHub {| hub_Type := 7 |}), true, None, []).
Proof.
  apply (@ReadMessage_envelope Wire.wire_JSON
           (Wire.json_text "{'type':7,'error':'bye','allowReconnect':true}") [] 7).
  - reflexivity.
  - reflexivity.
  - lia.
Defined.

Lemma ReadMessage_WriteMessage_witness :
  let completion :=
    MCompletion {| cpl_Type := 3; cpl_InvocationID := "666";
                   cpl_Result := VFloat64 (Wire.float_of_Z 315); cpl_Error := "" |} in
  let close :=
    MClose {| close_Type := 7; close_Error := "bye"; close_AllowReconnect := true |} in
  let w := {| written := []; broken := false |} in
  (exists text,
     written (@JsonHubProtocol.WriteMessage Wire.wire_JSON completion w).1
       = [text ++ [RS]]
     /\ @JsonHubProtocol.ReadMessage Wire.wire_JSON (text ++ [RS])
        = (Some completion, true, None, []))
  /\ (exists text,
        written (@JsonHubProtocol.WriteMessage Wire.wire_JSON close w).1
          = [text ++ [RS]]
        /\ @JsonHubProtocol.ReadMessage Wire.wire_JSON (text ++ [RS])
           = (Some (MHub {| hub_Type := 7 |}), true, None, [])).
Proof.
  intros completion close w. split.
  - exists (Wire.json_text "{'type':3,'invocationId':'666','result':315}" ++ [x0a]).
    destruct (@ReadMessage_WriteMessage Wire.wire_JSON completion
                (Wire.json_text "{'type':3,'invocationId':'666','result':315}" ++ [x0a])
                [] w) as [Hw Hr];
      [reflexivity | reflexivity | vm_compute; repeat split; reflexivity | reflexivity |].
    split; [by rewrite Hw | exact Hr].
  - exists (Wire.json_text "{'type':7,'error':'bye','allowReconnect':true}" ++ [x0a]).
    destruct (@ReadMessage_WriteMessage Wire.wire_JSON close
                (Wire.json_text "{'type':7,'error':'bye','allowReconnect':true}" ++ [x0a])
                [] w) as [Hw Hr];
      [reflexivity | reflexivity | vm_compute; repeat split; reflexivity | reflexivity |].
    split; [by rewrite Hw | exact Hr].
Defined.

(** ** Arguments of a decoded invocation *)

(** X11: the arguments of an invocation returned by [ParseMessage] or by
    the earlier [ReadMessage] are all [json.RawMessage] values, also when
    the typed parse reported an error; so [UnmarshalArgument] never panics
    on them, whatever the type asked for. *)
Theorem invocation_arguments_are_raw `{JSON} (data : bytes) (i : invocationMessage)
    (value : gotype) :
  (JSONHubProtocol.parseFrame data).1 = Some (MInvocation i)
  \/ (JsonHubProtocol.decodeFrame data).1 = Some (MInvocation i) ->
  is_Some (raw_arguments (inv_Arguments i))
  /\ Forall (λ a, exists r, JSONHubProtocol.UnmarshalArgument a value = Ret r)
       (inv_Arguments i).
Proof.
  assert (forall raws : list bytes,
            is_Some (raw_arguments (map VRawMessage raws))
            /\ Forall (λ a, exists r, JSONHubProtocol.UnmarshalArgument a value = Ret r)
                 (map VRawMessage raws)) as Hraw.
  { induction raws as [|raw raws [[l Hl] IH]]; simpl.
    - split; [eauto | constructor].
    - rewrite Hl. split; [eauto|]. constructor; [|done]. simpl.
      destruct (Unmarshal_value raw value) as [v [e|]]; eauto. }
  unfold JSONHubProtocol.parseFrame, JsonHubProtocol.decodeFrame.
  destruct (Unmarshal_hubMessage data) as [h [err|]]; simpl;
    [intros [?|?]; discriminate|].
  repeat case_decide;
    repeat match goal with
    | |- context [let '(_, _) := ?x in _] => destruct x as [? ?]
    end; simpl; intros [Hi|Hi]; try discriminate;
    injection Hi as <-; apply Hraw.
Qed.

Lemma invocation_arguments_are_raw_witness :
  let frame :=
    Wire.json_text
      "{'type':1,'invocationId':'555','target':'simpleint','arguments':['CantParse']}" in
  let i := {| inv_Type := 1; inv_Target := "simpleint"; inv_InvocationID := "555";
              inv_Arguments := [VRawMessage (Wire.json_text "'CantParse'")];
              inv_StreamIds := [] |} in
  is_Some (raw_arguments (inv_Arguments i))
  /\ Forall (λ a, exists r,
               @JSONHubProtocol.UnmarshalArgument Wire.wire_JSON a (TInt Int) = Ret r)
       (inv_Arguments i).
Proof.
  intros frame i.
  apply (@invocation_arguments_are_raw Wire.wire_JSON frame i (TInt Int)).
  left. reflexivity.
Defined.

(** ** What [Receive] returns *)

Section ReceiveChunks.
Context `{JSON}.
Import HubConnection.

Lemma Read_whole_chunk (chunk : bytes) (conn : Reader) (data : bytes) :
  (length chunk <= length data)%nat ->
  Read (chunk :: conn) data
  = (length chunk, None, chunk ++ drop (length chunk) data, conn).
Proof.
  intros Hle. unfold Read. rewrite Nat.min_l by lia.
  rewrite take_ge by lia. apply Nat.leb_le in Hle. by rewrite Hle.
Qed.

Lemma last_default_cons (c L : bytes) (pre : list bytes) :
  default L (last (c :: pre)) = default c (last pre).
Proof. rewrite last_cons. by destruct (last pre). Qed.

(** One pass of the loop on a buffer without a separator: the buffer is
    emptied by [ReadMessage], refilled with the last chunk, and the next
    chunk is appended. *)
Lemma Receive_loop_step fuel (chunk : bytes) (conn : Reader) (B data : bytes) (n : nat) :
  IndexByte B RS = None ->
  (length chunk <= length data)%nat ->
  Receive_loop (S fuel) (chunk :: conn) B data n
  = Receive_loop fuel conn (take n data ++ chunk)
      (chunk ++ drop (length chunk) data) (length chunk).
Proof.
  intros HB Hle. cbn [Receive_loop].
  unfold ReadMessage, JsonHubProtocol_HubProtocol.
  rewrite (ReadMessage_incomplete_step B HB). cbn [negb].
  rewrite (Read_whole_chunk chunk conn data Hle).
  rewrite take_app_length. done.
Qed.

Lemma Receive_loop_chunks (pre : list bytes) :
  forall fuel (b rest : bytes) (conn' : Reader) (B data : bytes) (n : nat),
    length data = 4096%nat ->
    IndexByte B RS = None ->
    IndexByte (take n data) RS = None ->
    Forall (λ c, IndexByte c RS = None /\ (length c <= 4096)%nat) pre ->
    IndexByte b RS = None ->
    (length (b ++ RS :: rest) <= 4096)%nat ->
    (length pre + 2 <= fuel)%nat ->
    Receive_loop fuel (pre ++ (b ++ RS :: rest) :: conn') B data n
    = Some ((JsonHubProtocol.decodeFrame (default (take n data) (last pre) ++ b)).1,
            (JsonHubProtocol.decodeFrame (default (take n data) (last pre) ++ b)).2, conn').
Proof.
  induction pre as [|c pre IH];
    intros fuel b rest conn' B data n Hdata HB HL Hpre Hb Hfin Hfuel.
  - destruct fuel as [|[|fuel]]; [simpl in Hfuel; lia | simpl in Hfuel; lia |].
    cbn [app]. rewrite Receive_loop_step by (done || lia).
    cbn [Receive_loop last default].
    unfold ReadMessage, JsonHubProtocol_HubProtocol.
    rewrite app_assoc.
    rewrite ReadMessage_frame_step.
    + done.
    + apply IndexByte_app_None. done.
  - destruct fuel as [|fuel]; [simpl in Hfuel; lia|].
    apply Forall_cons in Hpre as [[Hc Hclen] Hpre].
    cbn [app]. rewrite Receive_loop_step by (done || lia).
    rewrite (IH fuel b rest conn').
    + rewrite take_app_length. by rewrite last_default_cons.
    + rewrite length_app, length_drop. lia.
    + apply IndexByte_app_None. done.
    + by rewrite take_app_length.
    + done.
    + done.
    + done.
    + simpl in Hfuel. lia.
Qed.

Lemma reader_size_length (pre : list bytes) (fin : bytes) (conn' : Reader) :
  (length pre + 1 + length fin <= reader_size (pre ++ fin :: conn'))%nat.
Proof. induction pre as [|c pre IH]; simpl; lia. Qed.

(** X12: [Receive] returns the frame made of the read that brought the
    separator and of the one read before it.  A frame that arrives in one
    or two reads is therefore decoded whole; of a frame that takes more
    reads, everything before the last two is missing; and the bytes that
    follow the separator in its read are not kept for the next call.
    (Every read is taken to deliver at most the 4096 bytes of the
    receive buffer.) *)
Theorem Receive_last_two_reads (c : defaultHubConnection)
    (pre : list bytes) (b rest : bytes) (conn' : Reader) :
  conn_reader (Conn c) = pre ++ (b ++ RS :: rest) :: conn' ->
  Forall (λ chunk, IndexByte chunk RS = None /\ (length chunk <= 4096)%nat) pre ->
  IndexByte b RS = None ->
  (length (b ++ RS :: rest) <= 4096)%nat ->
  exists c',
    Receive c
    = Some ((JsonHubProtocol.decodeFrame (default [] (last pre) ++ b)).1,
            (JsonHubProtocol.decodeFrame (default [] (last pre) ++ b)).2, c')
    /\ conn_reader (Conn c') = conn'
    /\ conn_writer (Conn c') = conn_writer (Conn c)
    /\ Connected c' = Connected c.
Proof.
  intros Hc Hpre Hb Hfin. unfold Receive, Receive_reader. rewrite Hc.
  assert (length (zeros 4096) = 4096%nat) as Hz
    by (unfold zeros; by rewrite repeat_length).
  assert (length pre + 2 <= S (reader_size (pre ++ (b ++ RS :: rest) :: conn')))%nat
    as Hfuel.
  { pose proof (reader_size_length pre (b ++ RS :: rest) conn') as Hsize.
    rewrite length_app in Hsize. cbn [length] in Hsize.
    unfold Reader, bytes in *. lia. }
  rewrite (Receive_loop_chunks pre _ b rest conn' [] (zeros 4096) 0%nat
             Hz eq_refl eq_refl Hpre Hb Hfin Hfuel).
  eexists. split; [reflexivity|]. done.
Qed.

Lemma Receive_loop_exhausted (conn : Reader) :
  forall fuel (B data : bytes) (n : nat),
    length data = 4096%nat ->
    IndexByte B RS = None ->
    IndexByte (take n data) RS = None ->
    Forall (λ c, IndexByte c RS = None /\ (length c <= 4096)%nat) conn ->
    (length conn + 1 <= fuel)%nat ->
    Receive_loop fuel conn B data n = Some (None, Some io_EOF, []).
Proof.
  induction conn as [|c conn IH]; intros fuel B data n Hdata HB HL Hconn Hfuel.
  - destruct fuel as [|fuel]; [simpl in Hfuel; lia|].
    cbn [Receive_loop]. unfold ReadMessage, JsonHubProtocol_HubProtocol.
    by rewrite (ReadMessage_incomplete_step B HB).
  - destruct fuel as [|fuel]; [simpl in Hfuel; lia|].
    apply Forall_cons in Hconn as [[Hc Hclen] Hconn].
    rewrite Receive_loop_step by (done || lia).
    apply IH.
    + rewrite length_app, length_drop. lia.
    + apply IndexByte_app_None. done.
    + by rewrite take_app_length.
    + done.
    + simpl in Hfuel. lia.
Qed.

(** X13: when the transport ends before a separator has arrived, [Receive]
    returns a nil message and the [io.EOF] of the transport. *)
Theorem Receive_EOF (c : defaultHubConnection) :
  Forall (λ chunk, IndexByte chunk RS = None /\ (length chunk <= 4096)%nat)
    (conn_reader (Conn c)) ->
  exists c', Receive c = Some (None, Some io_EOF, c')
             /\ conn_reader (Conn c') = []
             /\ Connected c' = Connected c.
Proof.
  intros Hconn. unfold Receive, Receive_reader.
  assert (length (zeros 4096) = 4096%nat) as Hz
    by (unfold zeros; by rewrite repeat_length).
  assert (length (conn_reader (Conn c)) + 1
          <= S (reader_size (conn_reader (Conn c))))%nat as Hfuel.
  { clear Hconn. induction (conn_reader (Conn c)) as [|x l IHl]; simpl in *; lia. }
  rewrite (Receive_loop_exhausted (conn_reader (Conn c)) _ [] (zeros 4096) 0%nat
             Hz eq_refl eq_refl Hconn Hfuel).
  eexists. split; [reflexivity|]. done.
Qed.
End ReceiveChunks.

Lemma Receive_last_two_reads_witness :
  exists c',
    @HubConnection.Receive (@JsonHubProtocol_HubProtocol Wire.wire_JSON)
      (example_connection
         [Wire.text "7"; Wire.json_text "{'type':";
          Wire.json_text "6}" ++ RS :: cancel_frame] false)
    = Some (Some (MHub {| hub_Type := 6 |}), None, c')
    /\ conn_reader (Conn c') = []
    /\ conn_writer (Conn c') = {| written := []; broken := false |}
    /\ Connected c' = 1.
Proof.
  apply (@Receive_last_two_reads Wire.wire_JSON
           (example_connection
              [Wire.text "7"; Wire.json_text "{'type':";
               Wire.json_text "6}" ++ RS :: cancel_frame] false)
           [Wire.text "7"; Wire.json_text "{'type':"]
           (Wire.json_text "6}") cancel_frame []).
  - reflexivity.
  - repeat (constructor; [split; [reflexivity | apply Nat.leb_le; reflexivity]|]).
    constructor.
  - reflexivity.
  - apply Nat.leb_le. reflexivity.
Defined.

Lemma Receive_EOF_witness :
  exists c',
    @HubConnection.Receive (@JsonHubProtocol_HubProtocol Wire.wire_JSON)
      (example_connection [Wire.json_text "{'type':"; Wire.text "6"] false)
    = Some (None, Some io_EOF, c')
    /\ conn_reader (Conn c') = []
    /\ Connected c' = 1.
Proof.
  apply (@Receive_EOF Wire.wire_JSON
           (example_connection [Wire.json_text "{'type':"; Wire.text "6"] false)).
  repeat (constructor; [split; [reflexivity | apply Nat.leb_le; reflexivity]|]).
  constructor.
Defined.

(** ** Sequences of calls on a hub connection *)

Section HubCalls.
Context `{HubProtocol}.
Import HubConnection.

Lemma Receive_Connected c m e c' :
  Receive c = Some (m, e, c') ->
  Connected c' = Connected c /\ conn_writer (Conn c') = conn_writer (Conn c).
Proof.
  unfold Receive. destruct (Receive_reader _) as [[[m' e'] r]|]; [|done].
  by intros [= _ _ <-].
Qed.

Lemma do_call_Connected (op : hub_call) (c : defaultHubConnection) :
  Connected c = 0 \/ Connected c = 1 ->
  (Connected (do_call op c) = 0 \/ Connected (do_call op c) = 1)
  /\ IsConnected (do_call op c)
     = match op with
       | CallStart => true
       | CallClose _ => false
       | _ => IsConnected c
       end.
Proof.
  intros Hc. unfold IsConnected.
  destruct op; simpl;
    unfold Close, SendInvocation, StreamItem, Completion, Ping;
    rewrite ?send_Connected; simpl.
  - case_decide; split; try lia; by rewrite bool_decide_eq_true_2 by lia.
  - split; [lia | done].
  - done.
  - done.
  - done.
  - done.
  - destruct (Receive c) as [[[m e] c']|] eqn:HR; [|done].
    destruct (Receive_Connected c m e c' HR) as [-> _]. done.
Qed.

(** X14: the connection state after any sequence of calls: [IsConnected]
    tells whether the latest of the [Start] and [Close] calls was a
    [Start].  A closed connection is connected again after [Start]; the
    send operations and [Receive] never change the state. *)
Theorem IsConnected_after_calls (ops : list hub_call) (c : defaultHubConnection) :
  Connected c = 0 \/ Connected c = 1 ->
  IsConnected (do_calls ops c) = started_last ops (IsConnected c).
Proof.
  revert c. induction ops as [|op ops IH]; intros c Hc; [done|].
  unfold do_calls, started_last in *. cbn [fold_left].
  destruct (do_call_Connected op c Hc) as [Hc' Hop].
  rewrite (IH _ Hc'), Hop. by destruct op.
Qed.
End HubCalls.

Section HubWrites.
Context `{JSON}.
Import HubConnection.

Lemma do_call_written (op : hub_call) (c : defaultHubConnection) :
  written (conn_writer (Conn (do_call op c)))
  = written (conn_writer (Conn c))
    ++ match frame_of_call op with Some f => [f] | None => [] end.
Proof.
  assert (forall m c0,
            written (conn_writer (Conn (send m c0)))
            = written (conn_writer (Conn c0))
              ++ match Encode m with inl t => [t ++ [RS]] | inr _ => [] end) as Hsend.
  { intros m c0. rewrite send_writer. simpl.
    unfold JsonHubProtocol.WriteMessage.
    destruct (Encode m); simpl; [done | by rewrite app_nil_r]. }
  destruct op; unfold frame_of_call; simpl;
    unfold Close, SendInvocation, StreamItem, Completion, Ping;
    rewrite ?Hsend; simpl;
    try (by destruct (Encode _)).
  - by rewrite app_nil_r.
  - destruct (Receive c) as [[[m e] c']|] eqn:HR; [|by rewrite app_nil_r].
    destruct (Receive_Connected c m e c' HR) as [_ ->]. by rewrite app_nil_r.
Qed.

(** X15: what reaches the transport: with the earlier JSON protocol every
    send operation and every [Close] makes exactly one [Write], of the
    encoded message followed by the separator, in the order of the calls;
    a message that cannot be encoded and the calls [Start] and [Receive]
    write nothing. *)
Theorem written_after_calls (ops : list hub_call) (c : defaultHubConnection) :
  written (conn_writer (Conn (do_calls ops c)))
  = written (conn_writer (Conn c)) ++ omap frame_of_call ops.
Proof.
  revert c. induction ops as [|op ops IH]; intros c.
  - simpl. by rewrite app_nil_r.
  - unfold do_calls in *. cbn [fold_left omap list_omap].
    rewrite IH, do_call_written, <- app_assoc. f_equal.
    by destruct (frame_of_call op).
Qed.
End HubWrites.

Lemma IsConnected_after_calls_witness :
  HubConnection.IsConnected
    (do_calls [CallStart; CallPing; CallClose "bye"; CallReceive; CallStart;
               CallCompletion "1" Nil "failed"]
       (HubConnection.newHubConnection
          {| conn_reader := []; conn_writer := {| written := []; broken := true |};
             ConnectionID := "c1" |}))
  = true.
Proof.
  apply (@IsConnected_after_calls (@JsonHubProtocol_HubProtocol Wire.wire_JSON)).
  simpl. lia.
Defined.

(** ** The stream client: registering, delivering, completing *)

Section StreamClientMore.
Context `{Platform}.
Import StreamClient Dispatch.

Lemma type_Elem_chan (t : gotype) :
  kind_of t = KChan -> is_Some (type_Elem t).
Proof. induction t; simpl; try discriminate; eauto. Qed.

(** X16: for a streaming parameter and a stream id at position
    [chanCount], [buildChannelArgument] makes a new channel, open and
    empty, of the element type of the parameter, registers it under that
    stream id, and touches no other registration and no other channel. *)
Theorem buildChannelArgument_registers (u : streamClient)
    (invocation : invocationMessage) (argType : gotype) (chanCount : nat)
    (id : string) :
  registry_ok u ->
  is_streaming argType = true ->
  inv_StreamIds invocation !! chanCount = Some id ->
  exists a e u',
    buildChannelArgument u invocation argType chanCount = (Some a, true, None, u')
    /\ type_Elem argType = Some e
    /\ chans u !! a = None
    /\ upstreamChannels u' !! id = Some a
    /\ chans u' !! a = Some {| chan_elem := e; chan_sent := []; chan_closed := false |}
    /\ (forall id', id' <> id -> upstreamChannels u' !! id' = upstreamChannels u !! id')
    /\ (forall a', a' <> a -> chans u' !! a' = chans u !! a').
Proof.
  intros [Hreg Hnext] Hs Hid. unfold buildChannelArgument.
  pose proof Hs as Hs'. unfold is_streaming in Hs'.
  apply negb_true_iff in Hs'. rewrite Hs'.
  apply orb_false_iff in Hs' as [Hk _].
  apply bool_decide_eq_false in Hk. apply dec_stable in Hk.
  destruct (type_Elem_chan argType Hk) as [e He].
  pose proof (lookup_lt_Some _ _ _ Hid) as Hlt.
  apply Nat.ltb_lt in Hlt. rewrite Hlt, Hid, He. simpl.
  exists (next_chan u), e. eexists. split; [reflexivity|]. simpl.
  repeat split.
  - destruct (chans u !! next_chan u) eqn:Hc; [|done].
    specialize (Hnext (next_chan u) ltac:(eauto)). lia.
  - by rewrite lookup_insert_eq.
  - by rewrite lookup_insert_eq.
  - intros id' Hne. by rewrite lookup_insert_ne.
  - intros a' Hne. by rewrite lookup_insert_ne.
Qed.

Lemma client_ok_new : client_ok newStreamClient.
Proof.
  split; [apply newStreamClient_ok|]. split.
  - intros id a ch Hid. cbn in Hid. by rewrite lookup_empty in Hid.
  - intros id1 id2 a Hid. cbn in Hid. by rewrite lookup_empty in Hid.
Qed.

Lemma client_ok_build u invocation argType chanCount :
  client_ok u -> client_ok (buildChannelArgument u invocation argType chanCount).2.
Proof.
  intros (Hok & Hopen & Hinj).
  split; [by apply buildChannelArgument_ok|].
  destruct Hok as [Hreg Hnext]. unfold buildChannelArgument.
  destruct (_ || _); [done|].
  destruct (_ <? _)%nat; [|done]. simpl.
  assert (forall id a, upstreamChannels u !! id = Some a -> a <> next_chan u) as Hfresh.
  { intros id a Hid ->. specialize (Hnext _ (Hreg _ _ Hid)). lia. }
  split.
  - intros id a ch. rewrite lookup_insert. case_decide.
    + intros [= <-]. rewrite lookup_insert_eq. by intros [= <-].
    + intros Hid. rewrite lookup_insert_ne by (intros <-; by eapply Hfresh).
      by eapply Hopen.
  - intros id1 id2 a. rewrite !lookup_insert. repeat case_decide; try congruence.
    + intros [= <-] Hid2. by destruct (Hfresh _ _ Hid2).
    + intros Hid1 [= <-]. by destruct (Hfresh _ _ Hid1).
    + by apply Hinj.
Qed.

Lemma client_ok_set_chan u a ch ch' :
  client_ok u -> chans u !! a = Some ch -> chan_closed ch' = false ->
  client_ok (set_chan u a ch').
Proof.
  intros (Hok & Hopen & Hinj) Ha Hch'.
  split; [apply set_chan_ok; eauto|]. split; simpl.
  - intros id b c Hid. rewrite lookup_insert. case_decide.
    + by intros [= <-].
    + by eapply Hopen.
  - done.
Qed.

Lemma chan_Send_Ret_open ch v ch' :
  chan_Send ch v = Ret ch' -> chan_closed ch' = false.
Proof.
  unfold chan_Send. destruct (TypeOf v); [|done].
  destruct (negb _); [done|]. destruct (chan_closed ch); [done|].
  by intros [= <-].
Qed.

Lemma client_ok_item u streamItem err u' :
  client_ok u -> receiveStreamItem u streamItem = Ret (err, u') -> client_ok u'.
Proof.
  intros Hok. unfold receiveStreamItem.
  destruct (upstreamChannels u !! _) as [a|]; [|by intros [= _ <-]].
  destruct (chans u !! a) as [upChan|] eqn:Ha; [|done].
  destruct (si_Item streamItem); cbv beta iota;
    repeat match goal with
    | |- context [match ?x with _ => _ end] => destruct x eqn:?
    end;
    intros Heq; try discriminate; injection Heq as _ <-;
    try done; eapply client_ok_set_chan; eauto using chan_Send_Ret_open.
Qed.

Lemma client_ok_completion u completion :
  client_ok u ->
  exists u', receiveCompletionItem u completion = Ret u' /\ client_ok u'.
Proof.
  intros (Hok & Hopen & Hinj). unfold receiveCompletionItem.
  destruct (upstreamChannels u !! cpl_InvocationID completion) as [a|] eqn:Hid;
    [|by exists u].
  destruct Hok as [Hreg Hnext].
  destruct (Hreg _ _ Hid) as [ch Ha]. rewrite Ha.
  unfold chan_Close. rewrite (Hopen _ _ _ Hid Ha).
  eexists. split; [reflexivity|]. split; [split|split]; simpl.
  - intros id b. rewrite lookup_delete. case_decide; [done|].
    intros Hb. rewrite lookup_insert. case_decide; [eauto|]. by eapply Hreg.
  - intros b. rewrite lookup_insert. case_decide; [subst; eauto|]. apply Hnext.
  - intros id b c. rewrite lookup_delete. case_decide; [done|].
    intros Hb. rewrite lookup_insert_ne.
    + by eapply Hopen.
    + intros <-. apply H0. symmetry. by eapply Hinj.
  - intros id1 id2 b. rewrite !lookup_delete. repeat case_decide; try done.
    apply Hinj.
Qed.

(** X17: [client_ok] is an invariant of the stream client: it holds for
    [newStreamClient] and is kept by [buildChannelArgument], by
    [receiveStreamItem] and by [receiveCompletionItem]; and in such a state
    [receiveCompletionItem] always returns: it never closes a channel
    twice. *)
Theorem client_ok_invariant :
  client_ok newStreamClient
  /\ (forall u invocation argType chanCount,
        client_ok u ->
        client_ok (buildChannelArgument u invocation argType chanCount).2)
  /\ (forall u streamItem err u',
        client_ok u -> receiveStreamItem u streamItem = Ret (err, u') ->
        client_ok u')
  /\ (forall u completion,
        client_ok u ->
        exists u', receiveCompletionItem u completion = Ret u' /\ client_ok u').
Proof.
  split; [apply client_ok_new|]. split; [apply client_ok_build|].
  split; [apply client_ok_item | apply client_ok_completion].
Qed.
End StreamClientMore.

Section StreamClientItems.
Context `{Platform}.
Import StreamClient.

(** X18: [receiveCompletionItem] for a registered open channel closes the
    channel (what was sent on it stays), removes its stream id from the
    registry and leaves every other registration alone.  After that the
    same completion again is a no-op, and so is a late stream item for the
    removed id. *)
Theorem receiveCompletionItem_closes_and_removes (u : streamClient)
    (completion : completionMessage) (streamItem : streamItemMessage)
    (a : nat) (ch : channel) :
  upstreamChannels u !! cpl_InvocationID completion = Some a ->
  chans u !! a = Some ch ->
  chan_closed ch = false ->
  si_InvocationID streamItem = cpl_InvocationID completion ->
  exists u',
    receiveCompletionItem u completion = Ret u'
    /\ upstreamChannels u' !! cpl_InvocationID completion = None
    /\ chans u' !! a = Some {| chan_elem := chan_elem ch; chan_sent := chan_sent ch;
                               chan_closed := true |}
    /\ (forall id, id <> cpl_InvocationID completion ->
          upstreamChannels u' !! id = upstreamChannels u !! id)
    /\ receiveCompletionItem u' completion = Ret u'
    /\ receiveStreamItem u' streamItem = Ret (None, u').
Proof.
  intros Hid Ha Hopen Hsame. unfold receiveCompletionItem at 1.
  rewrite Hid, Ha. unfold chan_Close. rewrite Hopen.
  eexists. split; [reflexivity|].
  assert (forall (m : gmap string nat) (k : string), delete k m !! k = None) as Hdel
    by (intros; apply lookup_delete_eq).
  repeat split; simpl.
  - apply Hdel.
  - by rewrite lookup_insert_eq.
  - intros id Hne. by rewrite lookup_delete_ne.
  - unfold receiveCompletionItem. simpl. by rewrite Hdel.
  - unfold receiveStreamItem. simpl. by rewrite Hsame, Hdel.
Qed.

Lemma convert_ok_type (t : gotype) (f : float64) (v : any) :
  convertNumberToChannelType (zero_value t) f = (v, true) -> TypeOf v = Some t.
Proof. destruct t; simpl; try discriminate; by intros [= <-]. Qed.

Lemma convert_ok_convertible (t : gotype) (f : float64) :
  (convertNumberToChannelType (zero_value t) f).2 = convertible t.
Proof. by destruct t. Qed.

(** X19: a number for a registered open channel never fails: whatever the
    element type of the channel, [receiveStreamItem] returns a nil error
    and does not panic.  For a [chan string] the number is formatted with
    [fmt.Sprint] and sent: afterwards the channel holds it as its last
    value, and the other channels and the registry are as before.  For an
    element type without a case in
    [convertNumberToChannelType] (a named numeric type, bool, an interface,
    a struct ...) the number is dropped and the client is unchanged. *)
Theorem receiveStreamItem_number_other_types (u : streamClient) (id : string)
    (a : nat) (ch : channel) (ty : Z) (f : float64) :
  upstreamChannels u !! id = Some a ->
  chans u !! a = Some ch ->
  chan_closed ch = false ->
  let item := {| si_Type := ty; si_InvocationID := id; si_Item := VFloat64 f |} in
  (exists u', receiveStreamItem u item = Ret (None, u'))
  /\ (chan_elem ch = TString ->
      receiveStreamItem u item
      = Ret (None, set_chan u a {| chan_elem := TString;
                                   chan_sent := chan_sent ch
                                                ++ [VString (fmt_Sprint_float64 f)];
                                   chan_closed := false |}))
  /\ (convertible (chan_elem ch) = false -> receiveStreamItem u item = Ret (None, u))
  /\ (chan_elem ch = TString ->
      exists u', receiveStreamItem u item = Ret (None, u')
        /\ chans u' !! a = Some {| chan_elem := TString;
                                   chan_sent := chan_sent ch
                                                ++ [VString (fmt_Sprint_float64 f)];
                                   chan_closed := false |}
        /\ (forall b, b <> a -> chans u' !! b = chans u !! b)
        /\ upstreamChannels u' = upstreamChannels u).
Proof.
  intros Hid Ha Hopen item. unfold receiveStreamItem, item. simpl.
  rewrite Hid, Ha. split; [|split; [|split]]; cycle 3.
  - intros He. rewrite He. simpl. unfold chan_Send. simpl.
    rewrite He, Hopen. simpl. eexists. split; [reflexivity|]. simpl.
    rewrite lookup_insert_eq. split; [done|]. split; [|done].
    intros b Hb. by rewrite lookup_insert_ne.
  - destruct (convertNumberToChannelType (zero_value (chan_elem ch)) f)
      as [v [|]] eqn:Hconv; [|eauto].
    rewrite (chan_Send_open ch v (chan_elem ch) (convert_ok_type _ _ _ Hconv)
               (assignable_refl _) Hopen). eauto.
  - intros He. rewrite He. simpl. unfold chan_Send. simpl.
    by rewrite He, Hopen.
  - intros Hconv.
    pose proof (convert_ok_convertible (chan_elem ch) f) as Hc. rewrite Hconv in Hc.
    destruct (convertNumberToChannelType (zero_value (chan_elem ch)) f) as [v b].
    simpl in Hc. by rewrite Hc.
Qed.

(** X20: a stream item whose payload is nil (a JSON null) for a registered
    stream id makes [receiveStreamItem] panic: [reflect.TypeOf] of a nil
    interface is nil, and [Kind] is called on it.  A slice or array for a
    channel of element type [interface{}] panics in the same way, on the
    type of the channel's zero element. *)
Theorem receiveStreamItem_nil_panics (u : streamClient)
    (streamItem : streamItemMessage) (a : nat) (ch : channel) :
  upstreamChannels u !! si_InvocationID streamItem = Some a ->
  chans u !! a = Some ch ->
  si_Item streamItem = Nil
  \/ (chan_elem ch = TInterface
      /\ exists t, TypeOf (si_Item streamItem) = Some t
                   /\ is_sequence (kind_of t) = true) ->
  exists reason, receiveStreamItem u streamItem = Panic reason.
Proof.
  intros Hid Ha Hcase. unfold receiveStreamItem. rewrite Hid, Ha.
  destruct Hcase as [-> | (He & t & Ht & Hseq)]; [simpl; eauto|].
  rewrite He.
  destruct (si_Item streamItem); cbv beta iota;
    try (rewrite Ht, Hseq; simpl; eauto).
  injection Ht as <-. discriminate Hseq.
Qed.

(** X21: an item that is neither a number nor a slice or array, for a
    registered channel whose element type its own type can be assigned to,
    is sent on the channel as it is when the channel is open: afterwards
    the channel holds it as its last value, and the other channels and the
    registry are as before.  When the channel has been closed the panic of
    the send is recovered and returned as an error, and the client is
    unchanged. *)
Theorem receiveStreamItem_other_item (u : streamClient)
    (streamItem : streamItemMessage) (a : nat) (ch : channel) (t : gotype) :
  upstreamChannels u !! si_InvocationID streamItem = Some a ->
  chans u !! a = Some ch ->
  is_float64 (si_Item streamItem) = false ->
  TypeOf (si_Item streamItem) = Some t ->
  is_sequence (kind_of t) = false ->
  assignable t (chan_elem ch) = true ->
  (receiveStreamItem u streamItem
   = if chan_closed ch
     then Ret (Some (recovered "send on closed channel"), u)
     else Ret (None,
               set_chan u a {| chan_elem := chan_elem ch;
                               chan_sent := chan_sent ch ++ [si_Item streamItem];
                               chan_closed := false |}))
  /\ (chan_closed ch = false ->
      exists u', receiveStreamItem u streamItem = Ret (None, u')
        /\ chans u' !! a = Some {| chan_elem := chan_elem ch;
                                   chan_sent := chan_sent ch ++ [si_Item streamItem];
                                   chan_closed := false |}
        /\ (forall b, b <> a -> chans u' !! b = chans u !! b)
        /\ upstreamChannels u' = upstreamChannels u).
Proof.
  intros Hid Ha Hnum Ht Hseq Hass.
  assert (receiveStreamItem u streamItem
          = if chan_closed ch
            then Ret (Some (recovered "send on closed channel"), u)
            else Ret (None,
                      set_chan u a {| chan_elem := chan_elem ch;
                                      chan_sent := chan_sent ch ++ [si_Item streamItem];
                                      chan_closed := false |})) as Heq.
  { unfold receiveStreamItem. rewrite Hid, Ha.
    destruct (si_Item streamItem) eqn:Hitem; try discriminate Hnum;
      cbv beta iota; rewrite Ht, Hseq; unfold chan_Send; rewrite Ht, Hass;
      simpl; by destruct (chan_closed ch). }
  split; [exact Heq|].
  intros Hopen. rewrite Heq, Hopen. eexists. split; [reflexivity|]. simpl.
  rewrite lookup_insert_eq. split; [done|]. split; [|done].
  intros b Hb. by rewrite lookup_insert_ne.
Qed.

(** X26: an item that is neither a number nor a slice or array, and whose
    type cannot be assigned to the element type of the registered channel,
    makes [receiveStreamItem] panic: [Send] panics with a string, and the
    deferred function asserts that the recovered value is an error. *)
Theorem receiveStreamItem_not_assignable (u : streamClient)
    (streamItem : streamItemMessage) (a : nat) (ch : channel) (t : gotype) :
  upstreamChannels u !! si_InvocationID streamItem = Some a ->
  chans u !! a = Some ch ->
  is_float64 (si_Item streamItem) = false ->
  TypeOf (si_Item streamItem) = Some t ->
  is_sequence (kind_of t) = false ->
  assignable t (chan_elem ch) = false ->
  receiveStreamItem u streamItem
  = Panic "interface conversion: interface {} is string, not error".
Proof.
  intros Hid Ha Hnum Ht Hseq Hass. unfold receiveStreamItem. rewrite Hid, Ha.
  destruct (si_Item streamItem) eqn:Hitem; try discriminate Hnum;
    cbv beta iota; by rewrite Ht, Hseq, Hass.
Qed.

(** X22: a number for a registered channel that has been closed panics
    when the element type has a case in [convertNumberToChannelType]: this
    send is made outside the deferred recover. *)
Theorem receiveStreamItem_number_closed_channel (u : streamClient) (id : string)
    (a : nat) (ch : channel) (ty : Z) (f : float64) :
  upstreamChannels u !! id = Some a ->
  chans u !! a = Some ch ->
  chan_closed ch = true ->
  convertible (chan_elem ch) = true ->
  receiveStreamItem u {| si_Type := ty; si_InvocationID := id; si_Item := VFloat64 f |}
  = Panic "send on closed channel".
Proof.
  intros Hid Ha Hclosed Hconv. unfold receiveStreamItem. simpl. rewrite Hid, Ha.
  pose proof (convert_ok_convertible (chan_elem ch) f) as Hc. rewrite Hconv in Hc.
  destruct (convertNumberToChannelType (zero_value (chan_elem ch)) f) as [v b] eqn:Hv.
  simpl in Hc. subst b.
  unfold chan_Send. rewrite (convert_ok_type _ _ _ Hv), assignable_refl, Hclosed.
  done.
Qed.
End StreamClientItems.

Lemma buildChannelArgument_registers_witness :
  exists a e u',
    StreamClient.buildChannelArgument newStreamClient example_invocation
      (TChan RecvDir (TInt Int)) 1
    = (Some a, true, None, u')
    /\ type_Elem (TChan RecvDir (TInt Int)) = Some e
    /\ chans newStreamClient !! a = None
    /\ upstreamChannels u' !! "s2" = Some a
    /\ chans u' !! a = Some {| chan_elem := e; chan_sent := []; chan_closed := false |}
    /\ (forall id', id' <> "s2" ->
          upstreamChannels u' !! id' = upstreamChannels newStreamClient !! id')
    /\ (forall a', a' <> a -> chans u' !! a' = chans newStreamClient !! a').
Proof.
  apply (buildChannelArgument_registers newStreamClient example_invocation
           (TChan RecvDir (TInt Int)) 1 "s2").
  - apply newStreamClient_ok.
  - reflexivity.
  - reflexivity.
Defined.

Lemma receiveCompletionItem_closes_and_removes_witness :
  let completion := {| cpl_Type := 3; cpl_InvocationID := "s1";
                       cpl_Result := Nil; cpl_Error := "" |} in
  let late := {| si_Type := 2; si_InvocationID := "s1"; si_Item := VString "late" |} in
  exists u',
    StreamClient.receiveCompletionItem example_client completion = Ret u'
    /\ upstreamChannels u' !! "s1" = None
    /\ chans u' !! 0%nat = Some {| chan_elem := TInt Int; chan_sent := [];
                                   chan_closed := true |}
    /\ (forall id, id <> "s1" ->
          upstreamChannels u' !! id = upstreamChannels example_client !! id)
    /\ StreamClient.receiveCompletionItem u' completion = Ret u'
    /\ @StreamClient.receiveStreamItem example_platform u' late = Ret (None, u').
Proof.
  intros completion late.
  apply (@receiveCompletionItem_closes_and_removes example_platform example_client
           completion late 0%nat
           {| chan_elem := TInt Int; chan_sent := []; chan_closed := false |});
    reflexivity.
Defined.

Lemma receiveStreamItem_number_other_types_witness :
  exists u',
    @StreamClient.receiveStreamItem example_platform example_client2
      {| si_Type := 2; si_InvocationID := "t1"; si_Item := VFloat64 float_3_75 |}
    = Ret (None, u')
    /\ chans u' !! 0%nat
       = Some {| chan_elem := TString;
                 chan_sent := [] ++ [VString (@fmt_Sprint_float64 example_platform
                                                float_3_75)];
                 chan_closed := false |}
    /\ (forall b, b <> 0%nat -> chans u' !! b = chans example_client2 !! b)
    /\ upstreamChannels u' = upstreamChannels example_client2.
Proof.
  destruct (@receiveStreamItem_number_other_types example_platform example_client2
              "t1" 0%nat
              {| chan_elem := TString; chan_sent := []; chan_closed := false |}
              2 float_3_75 eq_refl eq_refl eq_refl) as (_ & _ & _ & Hstring).
  exact (Hstring eq_refl).
Defined.

Lemma receiveStreamItem_nil_panics_witness :
  exists reason,
    @StreamClient.receiveStreamItem example_platform example_client2
      {| si_Type := 2; si_InvocationID := "t1"; si_Item := Nil |}
    = Panic reason.
Proof.
  apply (@receiveStreamItem_nil_panics example_platform example_client2
           {| si_Type := 2; si_InvocationID := "t1"; si_Item := Nil |} 0%nat
           {| chan_elem := TString; chan_sent := []; chan_closed := false |}).
  - reflexivity.
  - reflexivity.
  - left. reflexivity.
Defined.

Lemma receiveStreamItem_other_item_witness :
  exists u',
    @StreamClient.receiveStreamItem example_platform example_client2
      {| si_Type := 2; si_InvocationID := "t1"; si_Item := VString "hello" |}
    = Ret (None, u')
    /\ chans u' !! 0%nat
       = Some {| chan_elem := TString; chan_sent := [] ++ [VString "hello"];
                 chan_closed := false |}
    /\ (forall b, b <> 0%nat -> chans u' !! b = chans example_client2 !! b)
    /\ upstreamChannels u' = upstreamChannels example_client2.
Proof.
  destruct (@receiveStreamItem_other_item example_platform example_client2
              {| si_Type := 2; si_InvocationID := "t1"; si_Item := VString "hello" |}
              0%nat {| chan_elem := TString; chan_sent := []; chan_closed := false |}
              TString eq_refl eq_refl eq_refl eq_refl eq_refl eq_refl)
    as [_ Hopen].
  exact (Hopen eq_refl).
Defined.

Lemma receiveStreamItem_not_assignable_witness :
  @StreamClient.receiveStreamItem example_platform example_client
    {| si_Type := 2; si_InvocationID := "s1"; si_Item := VString "hello" |}
  = Panic "interface conversion: interface {} is string, not error".
Proof.
  apply (@receiveStreamItem_not_assignable example_platform example_client
           {| si_Type := 2; si_InvocationID := "s1"; si_Item := VString "hello" |}
           0%nat {| chan_elem := TInt Int; chan_sent := []; chan_closed := false |}
           TString);
    reflexivity.
Defined.

Lemma receiveStreamItem_number_closed_channel_witness :
  @StreamClient.receiveStreamItem example_platform
    (set_chan example_client 0
       {| chan_elem := TInt Int; chan_sent := []; chan_closed := true |})
    {| si_Type := 2; si_InvocationID := "s1"; si_Item := VFloat64 float_3_75 |}
  = Panic "send on closed channel".
Proof.
  apply (@receiveStreamItem_number_closed_channel example_platform
           (set_chan example_client 0
              {| chan_elem := TInt Int; chan_sent := []; chan_closed := true |})
           "s1" 0%nat
           {| chan_elem := TInt Int; chan_sent := []; chan_closed := true |}
           2 float_3_75);
    reflexivity.
Defined.

(** ** More on numbers, binding and receiving *)

(** X23: converting a finite number to an integer channel type discards
    the fraction: when the result fits the type, it has the sign of the
    number, and its magnitude is the largest integer not above the
    magnitude [m * 2^e] of the number. *)
Theorem convertNumberToChannelType_truncates `{Platform} (k : intKind) (z0 z : Z)
    (s : bool) (m : positive) (e : Z) :
  float_trunc (S754_finite s m e) = Some z ->
  min_int k <= z <= max_int k ->
  convertNumberToChannelType (VInt k z0) (S754_finite s m e) = (VInt k z, true)
  /\ (if s then z <= 0 else 0 <= z)
  /\ (0 <= e -> Z.abs z = Z.pos m * 2 ^ e)
  /\ (e < 0 -> Z.abs z * 2 ^ (- e) <= Z.pos m < (Z.abs z + 1) * 2 ^ (- e)).
Proof.
  intros Hz Hfit. split.
  - simpl. by rewrite (float64_to_int_in_range k _ z Hz Hfit).
  - unfold float_trunc in Hz. injection Hz as <-.
    destruct (Z.leb_spec 0 e) as [He|He].
    + assert (0 < 2 ^ e) by (apply Z.pow_pos_nonneg; lia).
      assert (0 < Z.pos m * 2 ^ e) by nia.
      destruct s; repeat split; try lia.
    + assert (0 < 2 ^ (- e)) by (apply Z.pow_pos_nonneg; lia).
      pose proof (Z.div_mod (Z.pos m) (2 ^ (- e)) ltac:(lia)) as Hdm.
      pose proof (Z.mod_pos_bound (Z.pos m) (2 ^ (- e)) ltac:(lia)) as Hb.
      assert (0 <= Z.pos m / 2 ^ (- e)) by (apply Z.div_pos; lia).
      destruct s; repeat split; try lia; intros _;
        rewrite ?Z.abs_opp, Z.abs_eq by lia; nia.
Qed.

Lemma convertNumberToChannelType_truncates_witness :
  @convertNumberToChannelType example_platform (VInt Int8 0)
    (S754_finite true 8444249301319680 (-51))
  = (VInt Int8 (-3), true)
  /\ -3 <= 0
  /\ (0 <= -51 -> Z.abs (-3) = 8444249301319680 * 2 ^ (-51))
  /\ (-51 < 0 ->
      Z.abs (-3) * 2 ^ (- -51) <= 8444249301319680 < (Z.abs (-3) + 1) * 2 ^ (- -51)).
Proof.
  apply (@convertNumberToChannelType_truncates example_platform Int8 0 (-3) true
           8444249301319680 (-51)).
  - reflexivity.
  - vm_compute. split; discriminate.
Defined.

(** X24: [buildChannelArgument] reports a parameter as a streaming one
    exactly for a channel the method can receive from; it fails exactly
    when such a parameter finds no stream id left at position [chanCount],
    and it returns a channel exactly when one is left.  Without a channel
    the client is unchanged. *)
Theorem buildChannelArgument_cases (u : streamClient) (invocation : invocationMessage)
    (argType : gotype) (chanCount : nat) :
  let r := StreamClient.buildChannelArgument u invocation argType chanCount in
  r.1.1.2 = Dispatch.is_streaming argType
  /\ (is_Some r.1.2 <->
      Dispatch.is_streaming argType = true
      /\ (length (inv_StreamIds invocation) <= chanCount)%nat)
  /\ (is_Some r.1.1.1 <->
      Dispatch.is_streaming argType = true
      /\ (chanCount < length (inv_StreamIds invocation))%nat)
  /\ (r.1.1.1 = None -> r.2 = u).
Proof.
  unfold StreamClient.buildChannelArgument, Dispatch.is_streaming.
  destruct (_ || _); simpl.
  - repeat split; try done; try (intros [? ?]; discriminate).
  - destruct (Nat.ltb_spec chanCount (length (inv_StreamIds invocation))); simpl;
      repeat split; eauto; try lia; try done;
      try (intros [? ?]; discriminate); try (intros [_ ?]; lia).
Qed.

Section ReceiveFrames.
Context `{JSON}.
Import HubConnection.

Lemma Receive_one_read (c : defaultHubConnection) (f : bytes) (conn' : Reader) :
  conn_reader (Conn c) = (f ++ [RS]) :: conn' ->
  IndexByte f RS = None ->
  (length f < 4096)%nat ->
  Receive c
  = Some ((JsonHubProtocol.decodeFrame f).1, (JsonHubProtocol.decodeFrame f).2,
          {| Connected := Connected c;
             Conn := {| conn_reader := conn';
                        conn_writer := conn_writer (Conn c);
                        ConnectionID := ConnectionID (Conn c) |} |}).
Proof.
  intros Hc Hf Hlen. unfold Receive, Receive_reader. rewrite Hc.
  assert (length (zeros 4096) = 4096%nat) as Hz
    by (unfold zeros; by rewrite repeat_length).
  rewrite (Receive_loop_chunks [] _ f [] conn' [] (zeros 4096) 0%nat
             Hz eq_refl eq_refl).
  - done.
  - constructor.
  - done.
  - rewrite length_app. simpl. lia.
  - simpl. lia.
Qed.

Lemma Receive_repeatedly_S (n : nat) (c : defaultHubConnection) :
  Receive_repeatedly (S n) c
  = match Receive c with
    | Some (m, err, c') => (m, err) :: Receive_repeatedly n c'
    | None => []
    end.
Proof. reflexivity. Qed.

(** X25: when every read of the transport delivers exactly one frame with
    its separator, successive calls of [Receive] return the frames decoded,
    in order, and the call after the last one returns [io.EOF]. *)
Theorem Receive_repeatedly_frames (frames : list bytes) (c : defaultHubConnection) :
  conn_reader (Conn c) = map (λ f, f ++ [RS]) frames ->
  Forall (λ f, IndexByte f RS = None /\ (length f < 4096)%nat) frames ->
  Receive_repeatedly (S (length frames)) c
  = map JsonHubProtocol.decodeFrame frames ++ [(None, Some io_EOF)].
Proof.
  revert c. induction frames as [|f frames IH]; intros c Hc Hfs.
  - simpl. unfold Receive, Receive_reader. simpl in Hc. rewrite Hc. done.
  - apply Forall_cons in Hfs as [[Hf Hlen] Hfs].
    cbn [length map app]. rewrite Receive_repeatedly_S.
    rewrite (Receive_one_read c f (map (λ f, f ++ [RS]) frames) Hc Hf Hlen).
    rewrite IH by done. by destruct (JsonHubProtocol.decodeFrame f).
Qed.
End ReceiveFrames.

Lemma Receive_repeatedly_frames_witness :
  @HubConnection.Receive_repeatedly (@JsonHubProtocol_HubProtocol Wire.wire_JSON) 3
    (example_connection [ping_frame ++ [RS]; cancel_frame ++ [RS]] false)
  = [(Some (MHub {| hub_Type := 6 |}), None);
     (Some (MCancelInvocation {| cancel_Type := 5; cancel_InvocationID := "9" |}),
      None);
     (None, Some io_EOF)].
Proof.
  apply (@Receive_repeatedly_frames Wire.wire_JSON [ping_frame; cancel_frame]
           (example_connection [ping_frame ++ [RS]; cancel_frame ++ [RS]] false)).
  - reflexivity.
  - repeat (constructor; [split; [reflexivity | apply Nat.ltb_lt; reflexivity]|]).
    constructor.
Defined.
